(** * Verification of the infocall campaign dialer

    Shallow embedding of the parts of [services/asterisk_service.py],
    [services/call_service.py] and [models/call.py] that manage the
    in-memory Call State Store ([active_calls]), the disconnect and DTMF
    handling of the AMI event handler, the pending-correlation cache, the
    per-campaign dial loop, the AMI connect loop and the scheduler's
    promotion of due campaigns.

    Conventions: Python strings are [string], each character standing for
    the code point of the same number (0 to 255); a Python dict keyed by
    strings is a [gmap string _]; Python [None] is [None] of an [option];
    wall-clock instants ([datetime.now(UTC)]) are integers counting
    microseconds, the resolution of Python's [datetime]. *)

From Stdlib Require Import ZArith Lia Bool List Ascii String.
From stdpp Require Import base gmap strings list.
Import ListNotations.
Open Scope string_scope.
Open Scope Z_scope.

(* ------------------------------------------------------------------ *)
(** ** Python helpers *)

(** [x in [a; b; ...]] on strings. *)
Definition str_in (x : string) (l : list string) : bool :=
  existsb (String.eqb x) l.

(** [needle in haystack] for Python strings. *)
Fixpoint str_contains (needle haystack : string) : bool :=
  match haystack with
  | EmptyString => String.prefix needle haystack
  | String _ rest => String.prefix needle haystack || str_contains needle rest
  end.

(** [str.lower()] on code points 0 to 255: 'A' to 'Z' and U+00C0 to
    U+00DE except U+00D7 map to the code point 32 higher; the others are
    left as they are. *)
Definition ascii_lower (c : ascii) : ascii :=
  let n := nat_of_ascii c in
  if ((65 <=? n)%nat && (n <=? 90)%nat)
     || ((192 <=? n)%nat && (n <=? 222)%nat && negb (n =? 215)%nat)
  then ascii_of_nat (n + 32) else c.

Fixpoint str_lower (s : string) : string :=
  match s with
  | EmptyString => EmptyString
  | String c rest => String (ascii_lower c) (str_lower rest)
  end.

(** [details or default]: [None] and the empty string are falsy. *)
Definition or_default (d : option string) (default : string) : string :=
  match d with
  | Some s => if String.eqb s "" then default else s
  | None => default
  end.

(** [x if x is not None else y]. *)
Definition if_not_none {A} (x y : option A) : option A :=
  match x with Some _ => x | None => y end.

(* ------------------------------------------------------------------ *)
(** ** The Call State Store ([app_state.active_calls]) *)

(** One entry of [active_calls[campaign_id][phone_number]]. *)
Record call_data := {
  status : string;
  details : option string;
  timestamp : Z;
  action_id : option string;
  uniqueid : option string;
  finalized_in_memory : bool
}.

(** [active_calls]: campaign id (as [str(campaign_id)]) to phone to record. *)
Abbreviation active_calls_t := (gmap string (gmap string call_data)).

(** [status_hierarchy] of [update_call_status], read with [.get(s, 0)]. *)
Definition status_hierarchy_tbl : list (string * Z) :=
  [("unknown", 0); ("pending", 1); ("waiting", 2); ("dialing", 10);
   ("ringing", 20); ("answered", 50); ("dtmf_received", 60);
   ("completed", 70); ("opted_out", 80); ("noanswer", 90); ("busy", 90);
   ("rejected", 90); ("aborted", 90)].

Fixpoint assoc_get (k : string) (l : list (string * Z)) (dflt : Z) : Z :=
  match l with
  | [] => dflt
  | (k', v) :: l' => if String.eqb k k' then v else assoc_get k l' dflt
  end.

Definition significance (s : string) : Z := assoc_get s status_hierarchy_tbl 0.

(** The final statuses listed in [update_call_status] and [is_call_complete]. *)
Definition final_statuses : list string :=
  ["completed"; "noanswer"; "busy"; "rejected"; "aborted"; "opted_out"].

Definition is_final (s : string) : bool := str_in s final_statuses.

(** The branch of the [allow_update] decision chain that fired. *)
Inductive update_reason :=
| HigherSignificance
| SameStatus
| TransitionalToNonTransitional
| DefinitiveOverride
| StuckOverride.

(** The [if/elif] chain computing [allow_update] and [update_reason]. *)
Definition allow_update (current_status : string) (is_already_finalized : bool)
    (new_status : string) : option update_reason :=
  let cur_sig := significance current_status in
  let new_sig := significance new_status in
  if cur_sig <? new_sig then Some HigherSignificance
  else if String.eqb new_status current_status then Some SameStatus
  else if str_in current_status ["dialing"; "ringing"]
          && negb (str_in new_status ["pending"; "waiting"; "unknown"])
  then Some TransitionalToNonTransitional
  else if is_already_finalized
          && str_in new_status ["completed"; "opted_out"; "aborted"]
          && (new_sig <? cur_sig)
  then Some DefinitiveOverride
  else if is_already_finalized
          && str_in new_status ["noanswer"; "busy"; "rejected"]
          && str_in current_status ["dialing"; "ringing"]
  then Some StuckOverride
  else None.

(** [update_call_status(campaign_id, phone_number, status, details,
    action_id, uniqueid)] at wall-clock instant [now]. *)
Definition update_call_status (now : Z) (cid phone new_status : string)
    (det : option string) (aid uid : option string)
    (ac : active_calls_t) : active_calls_t :=
  let ac1 := match ac !! cid with
             | Some _ => ac
             | None => <[cid := ∅]> ac
             end in
  let calls := default ∅ (ac1 !! cid) in
  let current := calls !! phone in
  let current_status := match current with Some r => status r | None => "" end in
  let is_already_finalized :=
    match current with Some r => finalized_in_memory r | None => false end in
  let cur_aid := match current with Some r => action_id r | None => None end in
  let cur_uid := match current with Some r => uniqueid r | None => None end in
  let put r := <[cid := <[phone := r]> calls]> ac1 in
  if String.eqb new_status "waiting" then
    put {| status := new_status;
           details := Some (or_default det "Status manually reset");
           timestamp := now;
           action_id := if_not_none aid cur_aid;
           uniqueid := if_not_none uid cur_uid;
           finalized_in_memory := false |}
  else if String.eqb current_status "" then
    put {| status := new_status; details := det; timestamp := now;
           action_id := aid; uniqueid := uid;
           finalized_in_memory := is_final new_status |}
  else
    match allow_update current_status is_already_finalized new_status with
    | Some _ =>
        put {| status := new_status; details := det; timestamp := now;
               action_id := if_not_none aid cur_aid;
               uniqueid := if_not_none uid cur_uid;
               finalized_in_memory := is_final new_status |}
    | None => ac1
    end.

(** Reading one record of the store. *)
Definition get_call (ac : active_calls_t) (cid phone : string) : option call_data :=
  ac !! cid ≫= fun calls => calls !! phone.

(* ------------------------------------------------------------------ *)
(** ** Disconnect ([Hangup]) handling of [direct_event_handler_with_optout] *)

(** The [final_status]/[details] decision of the [Hangup] branch, from the
    status currently in memory and the event's [Cause-txt]. *)
Definition hangup_decision (current_status_in_memory : option string)
    (cause : string) : string * string :=
  let lc := str_lower cause in
  if bool_decide (current_status_in_memory = Some "opted_out") then
    ("opted_out", "Member opted out (0# pressed)")
  else if bool_decide (current_status_in_memory = Some "aborted") then
    ("aborted", "Call aborted by admin")
  else if str_contains "user busy" lc then ("busy", "Line busy: " ++ cause)
  else if str_contains "no answer" lc || str_contains "timeout" lc then
    ("noanswer", "No answer/timeout: " ++ cause)
  else if str_contains "rejected" lc || str_contains "congestion" lc
          || str_contains "unallocated" lc then
    ("rejected", "Call rejected/failed: " ++ cause)
  else ("completed", "Call completed: " ++ cause).

(** The [Hangup] branch once [campaign_id] and [phone_number] are resolved. *)
Definition handle_hangup (now : Z) (cid phone cause : string)
    (event_uniqueid event_actionid : option string)
    (ac : active_calls_t) : active_calls_t :=
  let current := option_map status (get_call ac cid phone) in
  let '(final_status, det) := hangup_decision current cause in
  update_call_status now cid phone final_status (Some det)
    event_actionid event_uniqueid ac.

(** The effect of [update_call_status] on the one record it addresses:
    [None] stands for an absent record, and the result is the record left
    in the store. *)
Definition update_record (now : Z) (new_status : string) (det : option string)
    (aid uid : option string) (current : option call_data) : option call_data :=
  let current_status := match current with Some r => status r | None => "" end in
  let is_already_finalized :=
    match current with Some r => finalized_in_memory r | None => false end in
  let cur_aid := match current with Some r => action_id r | None => None end in
  let cur_uid := match current with Some r => uniqueid r | None => None end in
  if String.eqb new_status "waiting" then
    Some {| status := new_status;
            details := Some (or_default det "Status manually reset");
            timestamp := now;
            action_id := if_not_none aid cur_aid;
            uniqueid := if_not_none uid cur_uid;
            finalized_in_memory := false |}
  else if String.eqb current_status "" then
    Some {| status := new_status; details := det; timestamp := now;
            action_id := aid; uniqueid := uid;
            finalized_in_memory := is_final new_status |}
  else
    match allow_update current_status is_already_finalized new_status with
    | Some _ =>
        Some {| status := new_status; details := det; timestamp := now;
                action_id := if_not_none aid cur_aid;
                uniqueid := if_not_none uid cur_uid;
                finalized_in_memory := is_final new_status |}
    | None => current
    end.

Lemma get_call_update_call_status now cid phone st det aid uid ac cid' phone' :
  get_call (update_call_status now cid phone st det aid uid ac) cid' phone' =
  if decide (cid' = cid /\ phone' = phone)
  then update_record now st det aid uid (get_call ac cid phone)
  else get_call ac cid' phone'.
Proof.
  unfold update_call_status, update_record, get_call.
  destruct (ac !! cid) as [calls|] eqn:Hc; simpl.
  - rewrite Hc; simpl.
    destruct (decide (cid' = cid /\ phone' = phone)) as [[-> ->]|Hne].
    + destruct (String.eqb st "waiting"); [by simplify_map_eq|].
      destruct (calls !! phone) as [r|] eqn:Hr; simpl.
      * destruct (String.eqb (status r) ""); [by simplify_map_eq|].
        destruct (allow_update _ _ _); [by simplify_map_eq|by rewrite Hc].
      * by simplify_map_eq.
    + destruct (String.eqb st "waiting");
        [|destruct (String.eqb _ "");
          [|destruct (allow_update _ _ _); [|done]]];
        (destruct (decide (cid' = cid)) as [->|Hcid];
         [rewrite lookup_insert_eq, Hc; simpl; rewrite lookup_insert_ne; naive_solver
         |by rewrite lookup_insert_ne]).
  - rewrite lookup_insert_eq; simpl.
    destruct (decide (cid' = cid /\ phone' = phone)) as [[-> ->]|Hne].
    + rewrite lookup_empty; simpl.
      destruct (String.eqb st "waiting"); simpl; by simplify_map_eq.
    + destruct (decide (cid' = cid)) as [->|Hcid].
      * assert (phone' <> phone) by naive_solver.
        rewrite Hc; simpl.
        destruct (String.eqb st "waiting"); simpl; by simplify_map_eq.
      * rewrite !lookup_empty.
        destruct (String.eqb st "waiting"); simpl;
          rewrite !lookup_insert_ne by congruence; done.
Qed.

(** A call of [update_call_status] with its arguments. *)
Record upd_call := {
  u_now : Z;
  u_cid : string;
  u_phone : string;
  u_status : string;
  u_det : option string;
  u_aid : option string;
  u_uid : option string
}.

Definition apply_upd (ac : active_calls_t) (u : upd_call) : active_calls_t :=
  update_call_status (u_now u) (u_cid u) (u_phone u) (u_status u)
    (u_det u) (u_aid u) (u_uid u) ac.

(** A sequence of [update_call_status] calls, in order. *)
Definition run_updates (ops : list upd_call) (ac : active_calls_t) : active_calls_t :=
  fold_left apply_upd ops ac.

(** Every record flagged [finalized_in_memory] holds a final status. *)
Definition finalized_inv (ac : active_calls_t) : Prop :=
  forall cid phone r, get_call ac cid phone = Some r ->
  finalized_in_memory r = true -> is_final (status r) = true.

Lemma str_in_spec x l : str_in x l = true <-> In x l.
Proof.
  unfold str_in; rewrite existsb_exists; split.
  - intros (y & Hy & Heq); apply String.eqb_eq in Heq; subst; done.
  - intros H; exists x; split; [done|apply String.eqb_refl].
Qed.

Lemma update_record_finalized now st det aid uid cur r' :
  (forall r, cur = Some r -> finalized_in_memory r = true -> is_final (status r) = true) ->
  update_record now st det aid uid cur = Some r' ->
  finalized_in_memory r' = true -> is_final (status r') = true.
Proof.
  intros Hcur; unfold update_record.
  destruct (String.eqb st "waiting"); [intros [= <-]; simpl; discriminate|].
  destruct (String.eqb _ ""); [intros [= <-]; simpl; done|].
  destruct (allow_update _ _ _); [intros [= <-]; simpl; done|].
  intros ->; apply Hcur; done.
Qed.

Lemma finalized_inv_update ac u :
  finalized_inv ac -> finalized_inv (apply_upd ac u).
Proof.
  intros Hinv cid phone r; unfold apply_upd.
  rewrite get_call_update_call_status.
  case_decide as Hk.
  - destruct Hk as [-> ->]. apply update_record_finalized.
    intros r0 Hr0; apply (Hinv _ _ _ Hr0).
  - apply Hinv.
Qed.

Lemma finalized_inv_run ops ac :
  finalized_inv ac -> finalized_inv (run_updates ops ac).
Proof.
  revert ac; induction ops as [|u ops IH]; intros ac Hinv; simpl; [done|].
  apply IH, finalized_inv_update, Hinv.
Qed.

Lemma finalized_inv_empty : finalized_inv ∅.
Proof. intros cid phone r; unfold get_call; rewrite lookup_empty; done. Qed.

Lemma final_not_transitional s :
  is_final s = true -> str_in s ["dialing"; "ringing"] = false.
Proof.
  intros Hf; destruct (str_in s _) eqn:Ht; [|done].
  apply str_in_spec in Ht; apply str_in_spec in Hf.
  unfold final_statuses in Hf; simpl in Ht, Hf.
  destruct Ht as [<-|[<-|[]]]; naive_solver.
Qed.

Lemma final_not_empty s : is_final s = true -> String.eqb s "" = false.
Proof.
  intros Hf; destruct (String.eqb s "") eqn:He; [|done].
  apply String.eqb_eq in He; subst; discriminate.
Qed.

(** One update of a finalized record whose status is final. *)
Lemma update_record_finalized_monotone now st det aid uid r r' :
  finalized_in_memory r = true -> is_final (status r) = true ->
  update_record now st det aid uid (Some r) = Some r' ->
  significance (status r) <= significance (status r') \/
  st = "waiting" \/
  allow_update (status r) true st = Some DefinitiveOverride \/
  allow_update (status r) true st = Some StuckOverride.
Proof.
  intros Hfin Hfinal; unfold update_record.
  destruct (String.eqb st "waiting") eqn:Hw.
  { intros _; right; left; by apply String.eqb_eq. }
  rewrite (final_not_empty _ Hfinal), Hfin.
  destruct (allow_update (status r) true st) as [reason|] eqn:Ha.
  - intros [= <-]; simpl.
    unfold allow_update in Ha.
    destruct (significance (status r) <? significance st) eqn:Hlt;
      [left; apply Z.ltb_lt in Hlt; lia|].
    destruct (String.eqb st (status r)) eqn:Heq;
      [left; apply String.eqb_eq in Heq; subst; lia|].
    rewrite (final_not_transitional _ Hfinal) in Ha; simpl in Ha.
    destruct reason;
      [revert Ha; repeat case_match; intros; discriminate ..
      |right; right; left; reflexivity
      |right; right; right; reflexivity].
  - intros [= <-]; left; lia.
Qed.

(* ------------------------------------------------------------------ *)
(** ** The documented scenario of one record *)

Definition scen_cid : string := "7".
Definition scen_phone : string := "5551234".

Definition scen_upd (now : Z) (st : string) (ac : active_calls_t) : active_calls_t :=
  update_call_status now scen_cid scen_phone st None None None ac.

Definition scen_1 : active_calls_t := scen_upd 1 "dialing" ∅.
Definition scen_2 : active_calls_t := scen_upd 2 "ringing" scen_1.
Definition scen_3 : active_calls_t := scen_upd 3 "dialing" scen_2.
Definition scen_4 : active_calls_t := scen_upd 4 "answered" scen_3.
Definition scen_5 : active_calls_t :=
  handle_hangup 5 scen_cid scen_phone "NORMAL_CLEARING" None None scen_4.
Definition scen_6 : active_calls_t := scen_upd 6 "ringing" scen_5.

Definition scen_view (ac : active_calls_t) : option (string * bool) :=
  option_map (fun r => (status r, finalized_in_memory r))
    (get_call ac scen_cid scen_phone).

(** Concrete data for the instances below. *)
Definition mono_ops : list upd_call :=
  [ {| u_now := 1; u_cid := "7"; u_phone := "555"; u_status := "dialing";
       u_det := None; u_aid := None; u_uid := None |};
    {| u_now := 2; u_cid := "7"; u_phone := "555"; u_status := "completed";
       u_det := None; u_aid := None; u_uid := None |} ].

Definition mono_next : upd_call :=
  {| u_now := 3; u_cid := "7"; u_phone := "555"; u_status := "busy";
     u_det := None; u_aid := None; u_uid := None |}.

Definition mono_r : call_data :=
  {| status := "completed"; details := None; timestamp := 2;
     action_id := None; uniqueid := None; finalized_in_memory := true |}.

Definition mono_r' : call_data :=
  {| status := "busy"; details := None; timestamp := 3;
     action_id := None; uniqueid := None; finalized_in_memory := true |}.

(* ------------------------------------------------------------------ *)
(** ** DTMF handling ([DTMFEnd] branch of [direct_event_handler_with_optout]) *)

(** [DTMF_TIMEOUT_SECONDS = 2.0], in microseconds. *)
Definition DTMF_TIMEOUT_US : Z := 2000000.

(** An entry of [_dtmf_state_buffer]. *)
Record dtmf_state := { buffer : string; dtmf_ts : option Z }.

(** A row of the [members] table, as far as the opt-out reads and writes it. *)
Record member_row := { m_id : Z; m_phone : string; remove_from_call : Z }.

(** [SELECT id FROM members WHERE phone_number = %s] then [fetchone()]. *)
Definition select_member_id (members : list member_row) (phone : string) : option Z :=
  option_map m_id (List.find (fun m => String.eqb (m_phone m) phone) members).

(** [Member.update_remove_from_call_status(member_id, status)]. *)
Definition update_remove_from_call_status (members : list member_row)
    (member_id flag : Z) : list member_row :=
  map (fun m => if Z.eqb (m_id m) member_id
                then {| m_id := m_id m; m_phone := m_phone m; remove_from_call := flag |}
                else m) members.

(** The observable actions of the handler, in the order it performs them. *)
Inductive dtmf_effect :=
| PushStatus (st : string)
| SetDoNotCall (member_id : Z).

(** What the [DTMFEnd] branch reads and writes. *)
Record dtmf_world := {
  w_calls : active_calls_t;
  w_buffers : gmap string dtmf_state;
  w_members : list member_row;
  w_log : list dtmf_effect
}.

Definition push_status (now : Z) (cid phone st det : string)
    (uid aid : option string) (w : dtmf_world) : dtmf_world :=
  {| w_calls := update_call_status now cid phone st (Some det) aid uid (w_calls w);
     w_buffers := w_buffers w; w_members := w_members w;
     w_log := (w_log w ++ [PushStatus st])%list |}.

(** The reset-or-append step on the digit buffer. *)
Definition dtmf_next (now : Z) (digit : string) (cur : dtmf_state) : dtmf_state :=
  match dtmf_ts cur with
  | None => {| buffer := digit; dtmf_ts := Some now |}
  | Some t =>
      if DTMF_TIMEOUT_US <? now - t
      then {| buffer := digit; dtmf_ts := Some now |}
      else {| buffer := buffer cur ++ digit; dtmf_ts := Some now |}
  end.

(** The [DTMFEnd] branch, once [campaign_id] and [phone_number] are resolved,
    for an event carrying [Digit] at instant [now]. *)
Definition handle_dtmf (now : Z) (cid phone digit : string)
    (event_uniqueid event_actionid : option string) (w : dtmf_world) : dtmf_world :=
  let w1 := push_status now cid phone "dtmf_received" ("Pressed " ++ digit)
              event_uniqueid event_actionid w in
  let cur := default {| buffer := ""; dtmf_ts := None |} (w_buffers w1 !! phone) in
  let cur' := dtmf_next now digit cur in
  let w2 := {| w_calls := w_calls w1;
               w_buffers := <[phone := cur']> (w_buffers w1);
               w_members := w_members w1; w_log := w_log w1 |} in
  if String.eqb (buffer cur') "0#" then
    match select_member_id (w_members w2) phone with
    | Some member_id =>
        if Z.eqb member_id 0 then w2
        else
          let w3 := {| w_calls := w_calls w2; w_buffers := w_buffers w2;
                       w_members := update_remove_from_call_status (w_members w2) member_id 1;
                       w_log := (w_log w2 ++ [SetDoNotCall member_id])%list |} in
          let w4 := push_status now cid phone "opted_out" "Member pressed 0# to opt out"
                      event_uniqueid event_actionid w3 in
          {| w_calls := w_calls w4;
             w_buffers := <[phone := {| buffer := ""; dtmf_ts := dtmf_ts cur' |}]> (w_buffers w4);
             w_members := w_members w4; w_log := w_log w4 |}
    | None => w2
    end
  else w2.

(** A store holding one answered call, and the member table around it. *)
Definition dtmf_store : active_calls_t :=
  scen_upd 3 "answered" (scen_upd 2 "ringing" (scen_upd 1 "dialing" ∅)).

Definition dtmf_members : list member_row :=
  [ {| m_id := 42; m_phone := scen_phone; remove_from_call := 0 |} ].

Definition dtmf_world0 (members : list member_row) : dtmf_world :=
  {| w_calls := dtmf_store; w_buffers := ∅; w_members := members; w_log := [] |}.

(** Digit [0] at 10 s, then [#] one second later. *)
Definition dtmf_0_hash (members : list member_row) : dtmf_world :=
  handle_dtmf 11000000 scen_cid scen_phone "#" None None
    (handle_dtmf 10000000 scen_cid scen_phone "0" None None (dtmf_world0 members)).

(* ------------------------------------------------------------------ *)
(** ** The Pending Correlation Cache ([pending_correlations]) *)

Record pending_entry := {
  pc_campaign_id : string;
  pc_action_id : string;
  pc_timestamp : Z
}.

(** [register_pending_call(phone_number, campaign_id, action_id)] at [now]. *)
Definition register_pending_call (now : Z) (phone cid aid : string)
    (pc : gmap string pending_entry) : gmap string pending_entry :=
  <[phone := {| pc_campaign_id := cid; pc_action_id := aid; pc_timestamp := now |}]> pc.

(** [get_pending_campaign(phone_number)] at [now]: the result and the cache
    afterwards (an entry older than 120 s is deleted). *)
Definition get_pending_campaign (now : Z) (phone : string)
    (pc : gmap string pending_entry) : option string * gmap string pending_entry :=
  match pc !! phone with
  | Some pending =>
      if 120000000 <? now - pc_timestamp pending then (None, delete phone pc)
      else (Some (pc_campaign_id pending), pc)
  | None => (None, pc)
  end.

(* ------------------------------------------------------------------ *)
(** ** Completion check, stale cleanup and the completion monitor *)

(** [is_call_complete(phone, campaign_id)]. *)
Definition is_call_complete (ac : active_calls_t) (phone cid : string) : bool :=
  match ac !! cid with
  | None => true
  | Some calls =>
      match calls !! phone with
      | None => true
      | Some r => is_final (status r) || finalized_in_memory r
      end
  end.

(** [active_call_count] of one pass of [monitor_auto_call_completion]. *)
Definition active_call_count (ac : active_calls_t) (cid : string)
    (phones : list string) : nat :=
  length (List.filter (fun p => negb (is_call_complete ac p cid)) phones).

(** A record [cleanup_stale_active_calls] keeps: not finalized, or
    finalized at most 300 s ago. *)
Definition keep_call (now : Z) (r : call_data) : bool :=
  negb (finalized_in_memory r && (300000000 <? now - timestamp r)).

(** [cleanup_stale_active_calls()] at [now]; [db_status cid] is the status
    column [Call.get_by_id(int(cid))] returns ([None] when no row is found
    or the id does not parse). *)
Definition cleanup_stale_active_calls (now : Z) (db_status : string -> option string)
    (ac : active_calls_t) : active_calls_t :=
  map_imap (fun cid calls =>
    if String.eqb cid "default" then Some calls
    else match db_status cid with
         | None => None
         | Some st =>
             if str_in st ["completed"; "cancelled"; "failed"] then None
             else let calls' := filter (fun kv => keep_call now kv.2 = true) calls in
                  if bool_decide (calls' = ∅) then None else Some calls'
         end) ac.

Lemma is_call_complete_get_call_None ac cid phone :
  get_call ac cid phone = None -> is_call_complete ac phone cid = true.
Proof.
  unfold get_call, is_call_complete.
  destruct (ac !! cid) as [calls|]; simpl; [|done].
  intros ->; done.
Qed.

Lemma cleanup_drops_old_finalized now db_status ac cid phone r :
  cid <> "default" -> get_call ac cid phone = Some r ->
  finalized_in_memory r = true -> 300000000 < now - timestamp r ->
  get_call (cleanup_stale_active_calls now db_status ac) cid phone = None.
Proof.
  intros Hd Hr Hfin Hold; unfold get_call in *.
  destruct (ac !! cid) as [calls|] eqn:Hc; simpl in Hr; [|discriminate].
  unfold cleanup_stale_active_calls; rewrite map_lookup_imap, Hc; simpl.
  apply String.eqb_neq in Hd; rewrite Hd.
  destruct (db_status cid) as [st|]; [|done].
  destruct (_ || _); [reflexivity|].
  case_bool_decide; [reflexivity|]; simpl.
  apply map_lookup_filter_None_2; right.
  intros x Hx; rewrite Hx in Hr; injection Hr as ->; simpl.
  unfold keep_call; rewrite Hfin; apply Z.ltb_lt in Hold; rewrite Hold; discriminate.
Qed.

Lemma active_call_count_absent ac cid phones :
  (forall p, In p phones -> get_call ac cid p = None) ->
  active_call_count ac cid phones = 0%nat.
Proof.
  unfold active_call_count; induction phones as [|p ps IH]; intros Hall; [done|].
  simpl. rewrite is_call_complete_get_call_None by (apply Hall; left; done).
  simpl; apply IH; intros q Hq; apply Hall; right; done.
Qed.

(* ------------------------------------------------------------------ *)
(** ** The per-campaign dial loop of [auto_execute_call] *)

(** Where, if anywhere, the body of the [try] raises. *)
Inductive dial_fault :=
| NoFault
| RaiseBeforeStore   (** e.g. inside [initialize_ami_client] *)
| RaiseAfterStore.   (** between the [dialing] write and the send result *)

(** What one iteration of the loop observes from its environment. *)
Record dial_env := {
  e_campaign_status : string;  (** [Call.get_by_id(...).get('status')], or ["unknown"] *)
  e_client_connected : bool;   (** [ami_client_instance and ami_client_instance.connected] *)
  e_init_ok : bool;            (** [initialize_ami_client()] *)
  e_client_present : bool;     (** [ami_client_instance] at the send *)
  e_send_ok : bool;            (** [send_action('Originate', ...)] *)
  e_fault : dial_fault
}.

(** The record written into [active_calls] right before the originate. *)
Definition dialing_record (now : Z) (aid : string) : call_data :=
  {| status := "dialing"; details := Some "Auto-initiated"; timestamp := now;
     action_id := Some aid; uniqueid := None; finalized_in_memory := false |}.

(** One iteration for member [phone] with generated ActionID [aid] (the
    pending-correlation registration is left out; ["Error: call_err"]
    stands for the formatted exception text): the store
    afterwards, whether the loop [break]s, and whether the origination was
    attempted (the [dialing] write was reached). *)
Definition dial_iteration (now : Z) (cid phone aid : string) (env : dial_env)
    (ac : active_calls_t) : active_calls_t * bool * bool :=
  let reject det ac0 := update_call_status now cid phone "rejected" (Some det) (Some aid) None ac0 in
  let on_error ac0 :=
    if String.eqb phone "" then ac0
    else update_call_status now cid phone "rejected" (Some "Error: call_err") None None ac0 in
  if String.eqb (e_campaign_status env) "cancelled" then (ac, true, false)
  else if negb (String.eqb (e_campaign_status env) "in_progress") then (ac, true, false)
  else if negb (e_client_connected env) && negb (e_init_ok env) then (ac, true, false)
  else match e_fault env with
       | RaiseBeforeStore => (on_error ac, false, false)
       | _ =>
         let ac1 := <[cid := <[phone := dialing_record now aid]> (default ∅ (ac !! cid))]> ac in
         match e_fault env with
         | RaiseAfterStore => (on_error ac1, false, true)
         | _ =>
           if e_client_present env then
             if e_send_ok env then (ac1, false, true)
             else (reject "Failed AMI originate" ac1, false, true)
           else (reject "AMI client unavailable" ac1, false, true)
         end
       end.

(** The [for member in members] loop: each member is given with its phone,
    its ActionID and its environment; the result is the store and the
    phones whose origination was attempted. *)
Fixpoint dial_loop (now : Z) (cid : string)
    (members : list (string * string * dial_env)) (ac : active_calls_t)
    : active_calls_t * list string :=
  match members with
  | [] => (ac, [])
  | (phone, aid, env) :: rest =>
      let '(ac1, brk, attempted) := dial_iteration now cid phone aid env ac in
      if brk then (ac1, [])
      else let '(ac2, ps) := dial_loop now cid rest ac1 in
           (ac2, if attempted then phone :: ps else ps)
  end.

(** The record of [phone] exists and is [dialing] or [rejected]. *)
Definition rec_ok (ac : active_calls_t) (cid phone : string) : Prop :=
  exists r, get_call ac cid phone = Some r /\
            (status r = "dialing" \/ status r = "rejected").

Lemma get_call_store_write ac cid phone d p :
  get_call (<[cid := <[phone := d]> (default ∅ (ac !! cid))]> ac) cid p =
  if decide (p = phone) then Some d else get_call ac cid p.
Proof.
  unfold get_call; rewrite lookup_insert_eq; simpl.
  case_decide as Hp; [subst; by rewrite lookup_insert_eq|].
  rewrite lookup_insert_ne by congruence.
  destruct (ac !! cid); simpl; [done|by rewrite lookup_empty].
Qed.

Lemma rec_ok_store_write ac cid phone now aid p :
  p = phone \/ rec_ok ac cid p ->
  rec_ok (<[cid := <[phone := dialing_record now aid]> (default ∅ (ac !! cid))]> ac) cid p.
Proof.
  unfold rec_ok; rewrite get_call_store_write.
  case_decide as Hp; [intros _; eexists; split; [reflexivity|left; reflexivity]|].
  intros [Heq|H]; [contradiction|exact H].
Qed.

Lemma rec_ok_reject now cid phone det aid uid ac p :
  rec_ok ac cid p ->
  rec_ok (update_call_status now cid phone "rejected" det aid uid ac) cid p.
Proof.
  intros (r & Hr & Hst); unfold rec_ok.
  rewrite get_call_update_call_status.
  case_decide as Hk; [|exists r; done].
  destruct Hk as [_ ->]; rewrite Hr; unfold update_record; simpl.
  destruct Hst as [Hst|Hst]; rewrite Hst; simpl;
    [eexists; split; [reflexivity|right; reflexivity]|].
  eexists; split; [reflexivity|right; reflexivity].
Qed.

Lemma dial_iteration_ok now cid phone aid env ac p :
  let '(ac1, _, attempted) := dial_iteration now cid phone aid env ac in
  (rec_ok ac cid p -> rec_ok ac1 cid p) /\
  (attempted = true -> rec_ok ac1 cid phone).
Proof.
  unfold dial_iteration.
  destruct (String.eqb (e_campaign_status env) "cancelled"); [split; [done|discriminate]|].
  destruct (negb _); [split; [done|discriminate]|].
  destruct (negb _ && negb _); [split; [done|discriminate]|].
  destruct (e_fault env) eqn:Hf.
  - destruct (e_client_present env); [destruct (e_send_ok env)|]; split; intros H;
      repeat apply rec_ok_reject; apply rec_ok_store_write; auto.
  - split; [|discriminate]. intros H.
    destruct (String.eqb phone ""); [exact H|]. apply rec_ok_reject, H.
  - split; intros H; destruct (String.eqb phone "");
      repeat apply rec_ok_reject; apply rec_ok_store_write; auto.
Qed.

Lemma dial_loop_ok now cid members ac p :
  rec_ok ac cid p \/ In p (snd (dial_loop now cid members ac)) ->
  rec_ok (fst (dial_loop now cid members ac)) cid p.
Proof.
  revert ac; induction members as [|[[phone aid] env] rest IH]; intros ac; simpl.
  - intros [H|[]]; exact H.
  - pose proof (dial_iteration_ok now cid phone aid env ac p) as Hp.
    pose proof (dial_iteration_ok now cid phone aid env ac phone) as Hphone.
    destruct (dial_iteration now cid phone aid env ac) as [[ac1 brk] att].
    destruct Hp as [Hpres _]; destruct Hphone as [_ Hatt].
    destruct brk; simpl.
    + intros [H|[]]; apply Hpres, H.
    + destruct (dial_loop now cid rest ac1) as [ac2 ps] eqn:Hl; simpl.
      intros Hin; specialize (IH ac1); rewrite Hl in IH; simpl in IH; apply IH.
      destruct Hin as [H|H]; [left; apply Hpres, H|].
      destruct att; [destruct H as [<-|H]; [left; apply Hatt; done|right; exact H]|right; exact H].
Qed.

(** Two members: the first originate is sent, the second send fails. *)
Definition dial_env_sent : dial_env :=
  {| e_campaign_status := "in_progress"; e_client_connected := true; e_init_ok := true;
     e_client_present := true; e_send_ok := true; e_fault := NoFault |}.

Definition dial_env_send_failed : dial_env :=
  {| e_campaign_status := "in_progress"; e_client_connected := true; e_init_ok := true;
     e_client_present := true; e_send_ok := false; e_fault := NoFault |}.

Definition dial_members : list (string * string * dial_env) :=
  [("5551234", "a1", dial_env_sent); ("5559876", "a2", dial_env_send_failed)].

(* ------------------------------------------------------------------ *)
(** ** [SocketAMIClient.connect] *)

(** The exceptions a connect attempt can raise, by Python class:
    [socket.timeout], [ConnectionRefusedError], [OSError] and
    [ConnectionError] (raised for a bad greeting or a failed login) are all
    [OSError]s; [SleepValueError] and [SleepOverflowError] are the
    [ValueError] and [OverflowError] [time.sleep] raises;
    [OtherException] is any other [Exception]; [BaseOnly] is a
    [BaseException] that is not an [Exception] (e.g. [KeyboardInterrupt]). *)
Inductive py_exc :=
| SocketTimeout
| ConnRefused
| OSErr
| ConnError
| SleepValueError
| SleepOverflowError
| OtherException
| BaseOnly.













(* ------------------------------------------------------------------ *)
(** ** One connect attempt against the PBX, with the socket timeout *)

Definition crlf : string := String (ascii_of_nat 13) (String (ascii_of_nat 10) EmptyString).
Definition login_terminator : string := crlf ++ crlf.

(** What the PBX side does: how long the TCP handshake takes ([None]: the
    connection is refused), then the chunks it sends, each with the time
    (in microseconds) since the previous read returned; an empty chunk is
    an orderly close. After the last chunk the peer stays silent. *)
Record ami_peer := {
  p_connect_us : option Z;
  p_events : list (Z * string)
}.

(** Python socket semantics: with [settimeout(t)], a blocking call that
    waits longer than [t] raises [socket.timeout]; with [settimeout(None)]
    it waits forever. *)
Definition times_out (sock_timeout : option Z) (wait : Z) : bool :=
  match sock_timeout with Some t => t <? wait | None => false end.

(** How an attempt ends: logged in (with the socket timeout in force
    afterwards), raised, or blocked forever in a read. *)
Inductive attempt_run :=
| RunOk (final_timeout : option Z)
| RunRaise (e : py_exc)
| RunBlocks.

(** The check after the login response: success sets [settimeout(None)]. *)
Definition login_check (resp : string) : attempt_run :=
  if str_contains "Response: Success" resp && str_contains "Authentication accepted" resp
  then RunOk None
  else RunRaise ConnError.

(** [while b"\r\n\r\n" not in resp_bytes: chunk = self.socket.recv(4096) ...]
    under socket timeout [sock_timeout]. *)
Fixpoint login_wait (sock_timeout : option Z) (resp : string)
    (evs : list (Z * string)) : attempt_run :=
  if str_contains login_terminator resp then login_check resp
  else match evs with
       | [] => match sock_timeout with Some _ => RunRaise SocketTimeout | None => RunBlocks end
       | (wait, chunk) :: rest =>
           if times_out sock_timeout wait then RunRaise SocketTimeout
           else if String.eqb chunk "" then RunRaise ConnError
           else login_wait sock_timeout (resp ++ chunk) rest
       end.

(** The body of one attempt of [connect]: [settimeout(5)], [connect],
    greeting [recv(1024)], login, login-response loop. *)
Definition connect_attempt (p : ami_peer) : attempt_run :=
  let sock_timeout := Some 5000000 in
  match p_connect_us p with
  | None => RunRaise ConnRefused
  | Some g =>
      if times_out sock_timeout g then RunRaise SocketTimeout
      else match p_events p with
           | [] => RunRaise SocketTimeout
           | (wait, greeting) :: rest =>
               if times_out sock_timeout wait then RunRaise SocketTimeout
               else if negb (str_contains "Asterisk Call Manager" greeting)
               then RunRaise ConnError
               else login_wait sock_timeout "" rest
           end
  end.

(** A PBX that greets at once and answers the login correctly, 6 s later. *)
Definition login_ok_response : string :=
  "Response: Success" ++ crlf ++ "Message: Authentication accepted" ++ login_terminator.

Definition slow_login_peer : ami_peer :=
  {| p_connect_us := Some 1000;
     p_events := [(1000, "Asterisk Call Manager/5.0.1" ++ crlf);
                  (6000000, login_ok_response)] |}.

(* ------------------------------------------------------------------ *)
(** ** Campaign promotion: [scheduled_call_checker] and [Call.update_status] *)

(** A row of [scheduled_calls], as far as promotion reads and writes it. *)
Record sc_row := {
  sc_status : string;
  sc_details : option string;
  sc_scheduled : Z
}.

Definition sc_row_eqb (a b : sc_row) : bool :=
  String.eqb (sc_status a) (sc_status b) &&
  match sc_details a, sc_details b with
  | Some x, Some y => String.eqb x y
  | None, None => true
  | _, _ => false
  end &&
  Z.eqb (sc_scheduled a) (sc_scheduled b).

(** [Call.update_status(call_id, status, details)]: an unconditional
    [UPDATE ... WHERE id = %s], returning [cursor.rowcount > 0]. MySQL's
    rowcount is the number of matched rows when the client sets
    [FOUND_ROWS] ([found_rows = true]) and of changed rows otherwise. *)
Definition call_update_status (found_rows : bool) (db : gmap Z sc_row)
    (call_id : Z) (st : string) (det : option string) : gmap Z sc_row * bool :=
  match db !! call_id with
  | None => (db, false)
  | Some row =>
      let row' := {| sc_status := st;
                     sc_details := if bool_decide (det = None \/ det = Some "")
                                   then sc_details row else det;
                     sc_scheduled := sc_scheduled row |} in
      let rowcount : Z := if found_rows then 1
                          else if sc_row_eqb row row' then 0 else 1 in
      (<[call_id := row']> db, 0 <? rowcount)
  end.

(** [Call.get_pending_calls_for_scheduling(now_utc)] (its [ORDER BY] is
    left out: the set of ids is what matters here). *)
Definition get_pending_calls_for_scheduling (now : Z) (db : gmap Z sc_row) : list Z :=
  map fst (List.filter (fun kv => String.eqb (sc_status kv.2) "pending"
                                  && (sc_scheduled kv.2 <=? now))
                       (map_to_list db)).

(** The loop of one [scheduled_call_checker] pass over the calls it
    fetched: each successful flip to [ready] spawns an execution thread;
    the result lists the ids spawned. *)
Fixpoint promote_ready (found_rows : bool) (ready_calls : list Z) (db : gmap Z sc_row)
    : gmap Z sc_row * list Z :=
  match ready_calls with
  | [] => (db, [])
  | call_id :: rest =>
      let '(db1, ok) := call_update_status found_rows db call_id "ready"
                          (Some "Ready for execution") in
      let '(db2, spawned) := promote_ready found_rows rest db1 in
      (db2, if ok then call_id :: spawned else spawned)
  end.

(** The first write of a spawned [auto_execute_call]. *)
Definition exec_start (found_rows : bool) (db : gmap Z sc_row) (call_id : Z) : gmap Z sc_row :=
  fst (call_update_status found_rows db call_id "in_progress" (Some "Execution started")).

(** Two checker workers race on campaign 7, due at instant 100: both fetch
    it while pending; worker A flips it and its execution starts; then
    worker B flips it with its stale list. *)
Definition race_db0 : gmap Z sc_row :=
  {[ 7 := {| sc_status := "pending"; sc_details := None; sc_scheduled := 100 |} ]}.

Definition race (found_rows : bool) : list Z * list Z * list Z * gmap Z sc_row :=
  let fetched_a := get_pending_calls_for_scheduling 200 race_db0 in
  let fetched_b := get_pending_calls_for_scheduling 200 race_db0 in
  let '(db1, spawned_a) := promote_ready found_rows fetched_a race_db0 in
  let db2 := exec_start found_rows db1 7 in
  let '(db3, spawned_b) := promote_ready found_rows fetched_b db2 in
  (fetched_b, spawned_a, spawned_b, db3).

(* ------------------------------------------------------------------ *)
(** ** Reachable states of the Call State Store *)

(** Case analysis on the string [s] against every literal it is compared
    with in the goal. *)
Ltac str_cases s :=
  repeat (match goal with
          | |- context [String.eqb s ?k] =>
              let E := fresh "E" in
              destruct (String.eqb s k) eqn:E; [apply String.eqb_eq in E; subst s|]
          end).

(** The final statuses are exactly those of significance 70 or more. *)
Lemma is_final_significance s : is_final s = true <-> 70 <= significance s.
Proof.
  unfold is_final, str_in, final_statuses, significance, status_hierarchy_tbl; simpl.
  str_cases s; vm_compute; split; intros; first [reflexivity | discriminate | done].
Qed.

(** In every store reached by [update_call_status] calls, the
    [finalized_in_memory] flag of a record is exactly "its status is final". *)
Definition finalized_exact (ac : active_calls_t) : Prop :=
  forall cid phone r, get_call ac cid phone = Some r ->
  finalized_in_memory r = is_final (status r).

Lemma finalized_exact_update ac u :
  finalized_exact ac -> finalized_exact (apply_upd ac u).
Proof.
  intros Hinv cid phone r; unfold apply_upd.
  rewrite get_call_update_call_status.
  case_decide as Hk; [|apply Hinv].
  destruct Hk as [-> ->]; unfold update_record.
  destruct (String.eqb (u_status u) "waiting") eqn:Hw.
  { intros [= <-]; simpl. apply String.eqb_eq in Hw; rewrite Hw; reflexivity. }
  destruct (String.eqb _ ""); [intros [= <-]; reflexivity|].
  destruct (allow_update _ _ _); [intros [= <-]; reflexivity|].
  apply Hinv.
Qed.

Lemma finalized_exact_run ops ac :
  finalized_exact ac -> finalized_exact (run_updates ops ac).
Proof.
  revert ac; induction ops as [|u ops IH]; intros ac Hinv; simpl; [done|].
  apply IH, finalized_exact_update, Hinv.
Qed.

Lemma finalized_exact_empty : finalized_exact ∅.
Proof. intros cid phone r; unfold get_call; rewrite lookup_empty; done. Qed.

(** Writing a final status on a record whose flag is exact leaves a
    finalized record with a final status (applied or not). *)
Lemma update_record_final_status now st det aid uid cur :
  is_final st = true ->
  (forall r, cur = Some r -> finalized_in_memory r = is_final (status r)) ->
  exists r', update_record now st det aid uid cur = Some r' /\
             finalized_in_memory r' = true /\ is_final (status r') = true.
Proof.
  intros Hst Hcur; unfold update_record.
  destruct (String.eqb st "waiting") eqn:Hw.
  { apply String.eqb_eq in Hw; subst; discriminate. }
  destruct cur as [r|]; simpl.
  2: { eexists; split; [reflexivity|]; simpl; split; exact Hst. }
  destruct (String.eqb (status r) ""); [eexists; split; [reflexivity|]; simpl; split; exact Hst|].
  destruct (allow_update _ _ _) eqn:Ha; [eexists; split; [reflexivity|]; simpl; split; exact Hst|].
  exists r; split; [reflexivity|].
  specialize (Hcur r eq_refl).
  destruct (is_final (status r)) eqn:Hfr; [split; [rewrite Hcur; reflexivity|reflexivity]|].
  exfalso. unfold allow_update in Ha.
  apply is_final_significance in Hst.
  assert (Hlt : significance (status r) < 70).
  { destruct (Z.lt_ge_cases (significance (status r)) 70) as [H|H]; [exact H|].
    apply is_final_significance in H; congruence. }
  assert (Hb : (significance (status r) <? significance st) = true) by (apply Z.ltb_lt; lia).
  rewrite Hb in Ha; discriminate.
Qed.

Lemma hangup_decision_final cur cause : is_final (fst (hangup_decision cur cause)) = true.
Proof. unfold hangup_decision; repeat case_match; reflexivity. Qed.

(** An update accepted over a record with a final status writes a final
    status. *)
Lemma allow_update_from_final cur fin st x :
  is_final cur = true -> allow_update cur fin st = Some x -> is_final st = true.
Proof.
  intros Hc Ha; unfold allow_update in Ha.
  destruct (significance cur <? significance st) eqn:H1.
  { apply Z.ltb_lt in H1; apply is_final_significance;
    apply is_final_significance in Hc; lia. }
  destruct (String.eqb st cur) eqn:H2; [apply String.eqb_eq in H2; subst; done|].
  destruct (str_in cur ["dialing"; "ringing"]) eqn:H3.
  { apply str_in_spec in H3; destruct H3 as [<-|[<-|[]]]; discriminate. }
  destruct (fin && str_in st ["completed"; "opted_out"; "aborted"] && _) eqn:H4.
  { apply andb_true_iff in H4 as [H4 _]; apply andb_true_iff in H4 as [_ H4].
    apply str_in_spec in H4; destruct H4 as [<-|[<-|[<-|[]]]]; reflexivity. }
  destruct (fin && str_in st ["noanswer"; "busy"; "rejected"] && _) eqn:H5;
    [|discriminate].
  apply andb_true_iff in H5 as [H5 _]; apply andb_true_iff in H5 as [_ H5].
  apply str_in_spec in H5; destruct H5 as [<-|[<-|[<-|[]]]]; reflexivity.
Qed.

(* ------------------------------------------------------------------ *)
(** ** AMI wire format: [_event_listener] and [send_action] *)

(** String helpers with Python's semantics. *)
Fixpoint str_drop (n : nat) (s : string) : string :=
  match n, s with
  | O, _ => s
  | S _, EmptyString => EmptyString
  | S n', String _ s' => str_drop n' s'
  end.

(** [s.split(sep, 1)] guarded by [sep in s]: the text before the first
    occurrence of [sep] and the text after it, or [None] when [sep] does
    not occur. *)
Fixpoint split_once (sep s : string) : option (string * string) :=
  if String.prefix sep s then Some (EmptyString, str_drop (String.length sep) s)
  else match s with
       | EmptyString => None
       | String c s' =>
           match split_once sep s' with
           | Some (a, b) => Some (String c a, b)
           | None => None
           end
       end.

Fixpoint split_all_fuel (fuel : nat) (sep s : string) : list string :=
  match fuel with
  | O => [s]
  | S f =>
      match split_once sep s with
      | Some (a, b) => a :: split_all_fuel f sep b
      | None => [s]
      end
  end.

(** [s.split(sep)]. *)
Definition py_split (sep s : string) : list string :=
  split_all_fuel (String.length s) sep s.

Fixpoint str_has (c : ascii) (s : string) : bool :=
  match s with
  | EmptyString => false
  | String c' s' => Ascii.eqb c c' || str_has c s'
  end.

Definition CR : ascii := ascii_of_nat 13.
Definition colon_sp : string := ": ".
Definition frame_sep : string := crlf ++ crlf.

(** An event as the listener builds it: [event = {}] filled line by line. *)
Abbreviation ami_event := (gmap string string).

(** [if line and ": " in line: key, value = line.split(": ", 1); event[key] = value] *)
Definition parse_line (event : ami_event) (line : string) : ami_event :=
  if String.eqb line "" then event
  else match split_once colon_sp line with
       | Some (key, value) => <[key := value]> event
       | None => event
       end.

Definition parse_event_text (event_text : string) : ami_event :=
  fold_left parse_line (py_split crlf event_text) ∅.

(** The inner [while "\r\n\r\n" in buffer] loop of [_event_listener]:
    the events handed to the handlers (those with an ["Event"] key), in
    order, and the buffer left over.  The listener's bookkeeping on each
    dispatched event ([_local_id], [last_activity], debug log) is not
    modelled. *)
Fixpoint drain_fuel (fuel : nat) (buffer : string) : list ami_event * string :=
  match fuel with
  | O => ([], buffer)
  | S f =>
      match split_once frame_sep buffer with
      | None => ([], buffer)
      | Some (event_text, rest) =>
          let event := parse_event_text event_text in
          let '(evs, buf) := drain_fuel f rest in
          ((match event !! "Event" with Some _ => [event] | None => [] end) ++ evs, buf)%list
      end
  end.

Definition drain (buffer : string) : list ami_event * string :=
  drain_fuel (String.length buffer) buffer.

Definition str_concat (l : list string) : string := fold_right String.append "" l.

(** [action_str] as [send_action] builds it ([params.items()] in order). *)
Definition action_str (action : string) (params : list (string * string)) : string :=
  fold_left (fun acc '(key, value) => acc ++ key ++ ": " ++ value ++ crlf)
    params ("Action: " ++ action ++ crlf) ++ crlf.

(** A frame in the same format: one [key: value] line per field, then an
    empty line. *)
Definition field_text (kv : string * string) : string := fst kv ++ ": " ++ snd kv.
Definition field_line (kv : string * string) : string := field_text kv ++ crlf.
Definition ami_frame (fields : list (string * string)) : string :=
  str_concat (map field_line fields) ++ crlf.

(** The dict of the fields, later keys overwriting earlier ones. *)
Definition fields_map (fields : list (string * string)) : ami_event :=
  fold_left (fun m kv => <[fst kv := snd kv]> m) fields ∅.

(** A field the listener can read back: no [':'] in the key and no carriage
    return anywhere. *)
Definition field_ok (kv : string * string) : bool :=
  negb (str_has (ascii_of_nat 58) (fst kv)) && negb (str_has CR (fst kv)) &&
  negb (str_has CR (snd kv)).

Definition has_event (fields : list (string * string)) : bool :=
  match fields_map fields !! "Event" with Some _ => true | None => false end.

Fixpoint join_crlf (lines : list string) : string :=
  match lines with
  | [] => ""
  | [l] => l
  | l :: ls => l ++ crlf ++ join_crlf ls
  end.

(** Lemmas on strings; [String.append] is unfolded by [simpl] here. *)
Section wire_lemmas.
#[local] Arguments String.append : simpl nomatch.

Lemma str_app_nil s : (s ++ "")%string = s.
Proof. induction s; simpl; congruence. Qed.

Lemma str_app_assoc a b c : ((a ++ b) ++ c)%string = (a ++ (b ++ c))%string.
Proof. induction a; simpl; congruence. Qed.

Lemma str_length_app a b : String.length (a ++ b) = (String.length a + String.length b)%nat.
Proof. induction a; simpl; congruence. Qed.

Lemma prefix_length sep s : String.prefix sep s = true -> (String.length sep <= String.length s)%nat.
Proof.
  revert s; induction sep as [|c sep IH]; intros [|c' s] H; simpl in *; try lia; try discriminate.
  destruct (ascii_dec c c'); [apply IH in H; lia|discriminate].
Qed.

Lemma prefix_app_long sep x c :
  (String.length sep <= String.length x)%nat ->
  String.prefix sep (x ++ c) = String.prefix sep x.
Proof.
  revert x; induction sep as [|a sep IH]; intros [|b x] H; simpl in *;
    try reflexivity; try lia; try (destruct c; reflexivity).
  destruct (ascii_dec a b); [apply IH; lia|reflexivity].
Qed.

Lemma prefix_app_self sep y : String.prefix sep (sep ++ y) = true.
Proof.
  induction sep as [|a sep IH]; simpl; [destruct y; reflexivity|].
  destruct (ascii_dec a a); congruence.
Qed.

Lemma str_drop_length n s : String.length (str_drop n s) = (String.length s - n)%nat.
Proof. revert s; induction n; intros [|c s]; simpl; try lia; auto. Qed.

Lemma str_drop_app n x c :
  (n <= String.length x)%nat -> str_drop n (x ++ c) = (str_drop n x ++ c)%string.
Proof. revert x; induction n; intros [|b x] H; simpl in *; try reflexivity; try lia. apply IHn; lia. Qed.

Lemma str_drop_app_self x c : str_drop (String.length x) (x ++ c) = c.
Proof. induction x; simpl; auto. Qed.

Lemma split_once_eq sep s :
  split_once sep s =
  if String.prefix sep s then Some (EmptyString, str_drop (String.length sep) s)
  else match s with
       | EmptyString => None
       | String c s' =>
           match split_once sep s' with
           | Some (a, b) => Some (String c a, b)
           | None => None
           end
       end.
Proof. destruct s; reflexivity. Qed.

Lemma split_once_length sep s a b :
  split_once sep s = Some (a, b) ->
  (String.length a + String.length sep + String.length b = String.length s)%nat.
Proof.
  revert a b; induction s as [|c s IH]; intros a b H; rewrite split_once_eq in H.
  - destruct (String.prefix sep "") eqn:Hp; [|discriminate].
    injection H as <- <-; apply prefix_length in Hp.
    rewrite str_drop_length; simpl in *; lia.
  - destruct (String.prefix sep (String c s)) eqn:Hp.
    + injection H as <- <-; apply prefix_length in Hp.
      rewrite str_drop_length; simpl in *; lia.
    + destruct (split_once sep s) as [[a' b']|] eqn:Hs; [|discriminate].
      injection H as <- <-; pose proof (IH a' b' eq_refl); simpl; lia.
Qed.

Lemma split_once_app sep s c a b :
  split_once sep s = Some (a, b) -> split_once sep (s ++ c) = Some (a, (b ++ c)%string).
Proof.
  revert a b; induction s as [|ch s IH]; intros a b H.
  - rewrite split_once_eq in H.
    destruct (String.prefix sep "") eqn:Hp; [|discriminate].
    injection H as <- <-. apply prefix_length in Hp; simpl in Hp.
    destruct sep; simpl in *; [|lia]. destruct c; reflexivity.
  - pose proof (split_once_length _ _ _ _ H) as Hlen.
    rewrite split_once_eq in H |- *.
    rewrite prefix_app_long by lia.
    destruct (String.prefix sep (String ch s)) eqn:Hp.
    + injection H as <- <-. rewrite str_drop_app by lia. reflexivity.
    + destruct (split_once sep s) as [[a' b']|] eqn:Hs; [|discriminate].
      injection H as <- <-. simpl. rewrite (IH a' b' eq_refl). reflexivity.
Qed.

Lemma split_once_at_sep sep y : split_once sep (sep ++ y) = Some ("", y).
Proof. rewrite split_once_eq, prefix_app_self, str_drop_app_self; reflexivity. Qed.

Lemma split_once_cons_neq sep c s :
  String.prefix sep (String c s) = false ->
  split_once sep (String c s) =
  match split_once sep s with Some (a, b) => Some (String c a, b) | None => None end.
Proof. intros H; rewrite split_once_eq, H; reflexivity. Qed.

(** Skipping text that does not contain the first character of [sep]. *)
Lemma split_once_skip c0 sep' l y :
  str_has c0 l = false ->
  split_once (String c0 sep') (l ++ y) =
  match split_once (String c0 sep') y with
  | Some (a, b) => Some ((l ++ a)%string, b)
  | None => None
  end.
Proof.
  induction l as [|c l IH]; intros H.
  - simpl. destruct (split_once _ y) as [[a b]|]; reflexivity.
  - simpl in H. apply orb_false_iff in H as [H1 H2].
    change (String c l ++ y)%string with (String c (l ++ y)).
    rewrite split_once_cons_neq.
    + rewrite (IH H2). destruct (split_once _ y) as [[a b]|]; reflexivity.
    + simpl. destruct (ascii_dec c0 c) as [->|_]; [|reflexivity].
      rewrite Ascii.eqb_refl in H1; discriminate.
Qed.

Lemma split_once_empty c0 sep' : split_once (String c0 sep') "" = None.
Proof. reflexivity. Qed.

(** Lemmas on the listener loop. *)
Lemma drain_fuel_none n s : split_once frame_sep s = None -> drain_fuel n s = ([], s).
Proof. intros H; destruct n; simpl; [reflexivity|]; rewrite H; reflexivity. Qed.

Lemma drain_fuel_rest_length n s : (String.length (snd (drain_fuel n s)) <= String.length s)%nat.
Proof.
  revert s; induction n as [|n IH]; intros s; simpl; [lia|].
  destruct (split_once frame_sep s) as [[t rest]|] eqn:Hs; simpl; [|lia].
  apply split_once_length in Hs.
  specialize (IH rest); destruct (drain_fuel n rest); simpl in *; lia.
Qed.

Lemma drain_fuel_S f buffer :
  drain_fuel (S f) buffer =
  match split_once frame_sep buffer with
  | None => ([], buffer)
  | Some (event_text, rest) =>
      let event := parse_event_text event_text in
      let '(evs, buf) := drain_fuel f rest in
      ((match event !! "Event" with Some _ => [event] | None => [] end) ++ evs, buf)%list
  end.
Proof. reflexivity. Qed.

Lemma drain_fuel_stable n s :
  (String.length s <= n)%nat -> drain_fuel (S n) s = drain_fuel n s.
Proof.
  revert s; induction n as [|n IH]; intros s H.
  - destruct s; simpl in H; [|lia]. reflexivity.
  - destruct (split_once frame_sep s) as [[t rest]|] eqn:Hs;
      [|rewrite !(drain_fuel_none _ s Hs); reflexivity].
    pose proof (split_once_length _ _ _ _ Hs) as Hl; simpl in Hl.
    rewrite (drain_fuel_S (S n) s), (drain_fuel_S n s), Hs.
    rewrite IH by lia; reflexivity.
Qed.

Lemma drain_fuel_enough n s : (String.length s <= n)%nat -> drain_fuel n s = drain s.
Proof.
  intros H; unfold drain. replace n with (String.length s + (n - String.length s))%nat by lia.
  generalize (n - String.length s)%nat; intros k; induction k as [|k IH].
  - rewrite Nat.add_0_r; reflexivity.
  - rewrite Nat.add_succ_r, drain_fuel_stable by lia; exact IH.
Qed.

Lemma drain_fuel_rest_none n s :
  (String.length s <= n)%nat -> split_once frame_sep (snd (drain_fuel n s)) = None.
Proof.
  revert s; induction n as [|n IH]; intros s H; simpl.
  - destruct s; simpl in H; [reflexivity|lia].
  - destruct (split_once frame_sep s) as [[t rest]|] eqn:Hs; simpl; [|exact Hs].
    pose proof (split_once_length _ _ _ _ Hs) as Hl; simpl in Hl.
    specialize (IH rest ltac:(lia)). destruct (drain_fuel n rest); exact IH.
Qed.

Lemma drain_fuel_app n s c :
  (String.length s + String.length c <= n)%nat ->
  drain_fuel n (s ++ c) =
  let '(e1, r) := drain_fuel n s in
  let '(e2, r') := drain_fuel n (r ++ c) in ((e1 ++ e2)%list, r').
Proof.
  revert s c; induction n as [|n IH]; intros s c H.
  - destruct s, c; simpl in H; try lia. reflexivity.
  - destruct (split_once frame_sep s) as [[t rest]|] eqn:Hs.
    + pose proof (split_once_length _ _ _ _ Hs) as Hl; simpl in Hl.
      rewrite (drain_fuel_S n (s ++ c)), (drain_fuel_S n s), Hs, (split_once_app _ _ _ _ _ Hs).
      cbv zeta. rewrite (IH rest c) by lia.
      pose proof (drain_fuel_rest_length n rest) as Hr.
      destruct (drain_fuel n rest) as [e1 r] eqn:Hd; simpl in Hr.
      rewrite drain_fuel_stable by (rewrite str_length_app; lia).
      destruct (drain_fuel n (r ++ c)) as [e2 r']; simpl.
      rewrite app_assoc; reflexivity.
    + rewrite (drain_fuel_none (S n) s Hs).
      destruct (drain_fuel (S n) (s ++ c)); reflexivity.
Qed.

Lemma drain_app s c :
  drain (s ++ c) =
  let '(e1, r) := drain s in
  let '(e2, r') := drain (r ++ c) in ((e1 ++ e2)%list, r').
Proof.
  unfold drain at 1. rewrite drain_fuel_app by (rewrite str_length_app; lia).
  rewrite (drain_fuel_enough _ s) by (rewrite str_length_app; lia).
  pose proof (drain_fuel_rest_length (String.length s) s) as Hr.
  change (drain_fuel (String.length s) s) with (drain s) in Hr.
  destruct (drain s) as [e1 r]; simpl in Hr.
  rewrite drain_fuel_enough by (rewrite !str_length_app; lia). reflexivity.
Qed.

Lemma drain_rest_none s : split_once frame_sep (snd (drain s)) = None.
Proof. apply drain_fuel_rest_none; lia. Qed.

Lemma str_has_app c a b : str_has c (a ++ b) = str_has c a || str_has c b.
Proof. induction a as [|x a IH]; simpl; [reflexivity|]. rewrite IH, orb_assoc; reflexivity. Qed.

Lemma field_ok_parts kv :
  field_ok kv = true ->
  str_has (ascii_of_nat 58) (fst kv) = false /\ str_has CR (fst kv) = false /\
  str_has CR (snd kv) = false.
Proof.
  unfold field_ok; intros H.
  apply andb_true_iff in H as [H H3]; apply andb_true_iff in H as [H1 H2].
  apply negb_true_iff in H1, H2, H3; auto.
Qed.

Lemma field_text_no_cr kv : field_ok kv = true -> str_has CR (field_text kv) = false.
Proof.
  intros H; apply field_ok_parts in H as (_ & H2 & H3).
  unfold field_text; rewrite !str_has_app, H2, H3; reflexivity.
Qed.

Lemma split_field kv : field_ok kv = true -> split_once colon_sp (field_text kv) = Some (fst kv, snd kv).
Proof.
  intros H; apply field_ok_parts in H as (H1 & _ & _).
  destruct kv as [k v]; unfold field_text, colon_sp; cbn [fst snd] in *.
  pose proof (split_once_skip (ascii_of_nat 58) " " k (": " ++ v) H1) as Hs.
  change (String (ascii_of_nat 58) " ") with ": "%string in Hs.
  rewrite Hs, split_once_at_sep, str_app_nil; reflexivity.
Qed.

Lemma split_crlf_line l r :
  str_has CR l = false -> split_once crlf (l ++ crlf ++ r) = Some (l, r).
Proof.
  intros H; unfold crlf at 1; rewrite (split_once_skip _ _ l _ H).
  rewrite split_once_at_sep, str_app_nil; reflexivity.
Qed.

Lemma split_crlf_none l : str_has CR l = false -> split_once crlf l = None.
Proof.
  intros H; rewrite <- (str_app_nil l); unfold crlf; rewrite (split_once_skip _ _ l _ H).
  reflexivity.
Qed.

Lemma split_all_join lines n :
  lines <> [] -> Forall (fun l => str_has CR l = false) lines ->
  (String.length (join_crlf lines) <= n)%nat ->
  split_all_fuel n crlf (join_crlf lines) = lines.
Proof.
  revert n; induction lines as [|l ls IH]; intros n Hne Hall Hn; [done|].
  inversion Hall as [|? ? Hl Hls]; subst.
  destruct ls as [|l2 ls].
  - simpl. destruct n; simpl; [reflexivity|]. rewrite split_crlf_none by exact Hl; reflexivity.
  - change (join_crlf (l :: l2 :: ls)) with (l ++ crlf ++ join_crlf (l2 :: ls))%string in *.
    rewrite !str_length_app in Hn; change (String.length crlf) with 2%nat in Hn.
    destruct n as [|n]; [lia|]. cbn [split_all_fuel].
    rewrite split_crlf_line by exact Hl.
    rewrite IH by (done || lia). reflexivity.
Qed.

Lemma parse_fields_fold fields m :
  Forall (fun kv => field_ok kv = true) fields ->
  fold_left parse_line (map field_text fields) m =
  fold_left (fun m kv => <[fst kv := snd kv]> m) fields m.
Proof.
  revert m; induction fields as [|kv fs IH]; intros m Hall; simpl; [reflexivity|].
  inversion Hall as [|? ? Hkv Hfs]; subst.
  rewrite <- IH by exact Hfs. f_equal.
  unfold parse_line. rewrite split_field by exact Hkv.
  destruct (String.eqb (field_text kv) "") eqn:He; [|reflexivity].
  apply String.eqb_eq in He. destruct kv as [[|c k] v]; discriminate.
Qed.

Lemma parse_fields fields :
  fields <> [] -> Forall (fun kv => field_ok kv = true) fields ->
  parse_event_text (join_crlf (map field_text fields)) = fields_map fields.
Proof.
  intros Hne Hall; unfold parse_event_text, py_split.
  rewrite split_all_join; [apply parse_fields_fold, Hall| |  |lia].
  - destruct fields; simpl; congruence.
  - apply Forall_map. eapply Forall_impl; [exact Hall|]. intros kv; apply field_text_no_cr.
Qed.

Lemma field_text_head kv y :
  field_ok kv = true -> exists ch rest, (field_text kv ++ y)%string = String ch rest /\ ch <> CR.
Proof.
  intros H; apply field_ok_parts in H as (_ & H2 & _).
  destruct kv as [[|c k] v]; cbn [fst snd str_has] in *.
  - eexists _, _; split; [reflexivity|]. intros E; vm_compute in E; discriminate E.
  - eexists _, _; split; [reflexivity|].
    apply orb_false_iff in H2 as [H2 _]. apply Ascii.eqb_neq in H2.
    intros E; apply H2; symmetry; exact E.
Qed.

Lemma split_frame_crlf ch x :
  ch <> CR ->
  split_once frame_sep (crlf ++ String ch x) =
  match split_once frame_sep (String ch x) with
  | Some (a, b) => Some ((crlf ++ a)%string, b)
  | None => None
  end.
Proof.
  intros Hch.
  change (crlf ++ String ch x)%string with
    (String (ascii_of_nat 13) (String (ascii_of_nat 10) (String ch x))).
  rewrite split_once_cons_neq.
  2: { unfold frame_sep, crlf; cbn [String.prefix String.append].
       repeat (match goal with |- context [ascii_dec ?a ?b] => destruct (ascii_dec a b) end);
         try reflexivity; exfalso; unfold CR in Hch;
         first [match goal with H : ?a <> ?a |- _ => apply H; reflexivity end | congruence]. }
  rewrite split_once_cons_neq by reflexivity.
  destruct (split_once frame_sep (String ch x)) as [[a b]|]; reflexivity.
Qed.

Lemma split_frame_skip l y :
  str_has CR l = false ->
  split_once frame_sep (l ++ y) =
  match split_once frame_sep y with
  | Some (a, b) => Some ((l ++ a)%string, b)
  | None => None
  end.
Proof. intros H; exact (split_once_skip (ascii_of_nat 13) (String (ascii_of_nat 10) crlf) l y H). Qed.

Lemma split_frame fields rest :
  fields <> [] -> Forall (fun kv => field_ok kv = true) fields ->
  split_once frame_sep (ami_frame fields ++ rest) =
  Some (join_crlf (map field_text fields), rest).
Proof.
  intros Hne Hall; unfold ami_frame. rewrite str_app_assoc.
  induction fields as [|kv fs IH]; [done|].
  inversion Hall as [|? ? Hkv Hfs]; subst.
  assert (E : (str_concat (map field_line (kv :: fs)) ++ crlf ++ rest)%string =
              (field_text kv ++ (crlf ++ (str_concat (map field_line fs) ++ crlf ++ rest)))%string).
  { unfold str_concat, field_line; simpl. rewrite !str_app_assoc. reflexivity. }
  rewrite E, split_frame_skip by exact (field_text_no_cr kv Hkv).
  destruct fs as [|kv2 fs].
  - change (crlf ++ (str_concat (map field_line []) ++ crlf ++ rest))%string with (frame_sep ++ rest)%string.
    rewrite split_once_at_sep, str_app_nil; reflexivity.
  - specialize (IH ltac:(done) Hfs).
    inversion Hfs as [|? ? Hkv2 _]; subst.
    destruct (field_text_head kv2 (crlf ++ (str_concat (map field_line fs) ++ crlf ++ rest)) Hkv2)
      as (ch & x & Hx & Hch).
    assert (E2 : (str_concat (map field_line (kv2 :: fs)) ++ crlf ++ rest)%string = String ch x).
    { rewrite <- Hx; unfold str_concat, field_line; simpl; rewrite !str_app_assoc; reflexivity. }
    rewrite E2 in IH |- *.
    rewrite split_frame_crlf by exact Hch. rewrite IH. reflexivity.
Qed.

Lemma drain_frame fields rest :
  fields <> [] -> Forall (fun kv => field_ok kv = true) fields ->
  drain (ami_frame fields ++ rest) =
  (((if has_event fields then [fields_map fields] else []) ++ fst (drain rest))%list,
   snd (drain rest)).
Proof.
  intros Hne Hall. unfold drain at 1.
  assert (Hl : String.length (ami_frame fields ++ rest) = S (S (String.length (str_concat (map field_line fields)) + String.length rest))).
  { unfold ami_frame; rewrite !str_length_app; change (String.length crlf) with 2%nat; lia. }
  rewrite Hl, drain_fuel_S, split_frame by assumption.
  cbv zeta. rewrite parse_fields by assumption.
  rewrite drain_fuel_enough by lia.
  unfold has_event. destruct (fields_map fields !! "Event"); destruct (drain rest); reflexivity.
Qed.

Lemma action_str_fold params acc :
  fold_left (fun acc '(key, value) => acc ++ key ++ ": " ++ value ++ crlf) params acc =
  (acc ++ str_concat (map field_line params))%string.
Proof.
  revert acc; induction params as [|[k v] ps IH]; intros acc; cbn [fold_left map].
  - change (str_concat []) with ""; rewrite str_app_nil; reflexivity.
  - rewrite IH. change (str_concat (field_line (k, v) :: map field_line ps))
      with (field_line (k, v) ++ str_concat (map field_line ps))%string.
    unfold field_line, field_text; cbn [fst snd].
    rewrite !str_app_assoc; reflexivity.
Qed.

Lemma action_str_frame action params :
  action_str action params = ami_frame (("Action", action) :: params).
Proof.
  unfold action_str, ami_frame. rewrite action_str_fold. reflexivity.
Qed.

End wire_lemmas.

(** Concrete AMI traffic. *)
Definition response_frame : list (string * string) :=
  [("Response", "Success"); ("ActionID", "a1"); ("Message", "Originate successfully queued")].
Definition newstate_frame : list (string * string) :=
  [("Event", "Newstate"); ("Channel", "Local/5551234@from-internal-00000001;1");
   ("ChannelStateDesc", "Ringing")].
Definition hangup_frame : list (string * string) :=
  [("Event", "Hangup"); ("Cause", "16"); ("Cause-txt", "Normal Clearing")].
Definition originate_params : list (string * string) :=
  [("Channel", "Local/5551234@from-internal"); ("Context", "from-internal");
   ("Exten", "5551234"); ("Priority", "1"); ("ActionID", "a1")].

(* ------------------------------------------------------------------ *)
(** ** Correlation helpers of [direct_event_handler_with_optout] *)

(** Python truthiness of an optional string, and its [f"{...}"] text. *)
Definition py_truthy (o : option string) : bool :=
  match o with Some s => negb (String.eqb s "") | None => false end.
Definition py_str (o : option string) : string :=
  match o with Some s => s | None => "None" end.

(** [find_call_by_action_id(action_id)]: the nested [for] loops over
    [active_calls.items()] and [calls.items()], returning the first match.
    The dict iteration order is represented by the map's own order; the
    properties proved below do not depend on it. *)
Definition find_in_calls (aid : string) (calls : list (string * call_data)) : option string :=
  match List.find (fun pr => bool_decide (action_id pr.2 = Some aid)) calls with
  | Some (phone, _) => Some phone
  | None => None
  end.

Fixpoint find_in_campaigns (aid : string) (l : list (string * gmap string call_data))
    : option (string * string) :=
  match l with
  | [] => None
  | (cid, calls) :: rest =>
      match find_in_calls aid (map_to_list calls) with
      | Some phone => Some (cid, phone)
      | None => find_in_campaigns aid rest
      end
  end.

Definition find_call_by_action_id (aid : string) (ac : active_calls_t) : option (string * string) :=
  find_in_campaigns aid (map_to_list ac).

(** [clear_pending_call(phone_number)]. *)
Definition clear_pending_call (phone : string) (pc : gmap string pending_entry)
    : gmap string pending_entry :=
  delete phone pc.

(** [active_calls[campaign_id][phone_number]['uniqueid'] = originate_uniqueid]
    under [if campaign_id in active_calls and phone_number in active_calls[campaign_id]]. *)
Definition store_uniqueid (cid phone u : string) (ac : active_calls_t) : active_calls_t :=
  match ac !! cid with
  | Some calls =>
      match calls !! phone with
      | Some r =>
          <[cid := <[phone := {| status := status r; details := details r;
                                 timestamp := timestamp r; action_id := action_id r;
                                 uniqueid := Some u;
                                 finalized_in_memory := finalized_in_memory r |}]> calls]> ac
      | None => ac
      end
  | None => ac
  end.

(** [process_originate_response(event, campaign_id, phone_number)] at [now],
    on the Call State Store and the pending-correlation cache. *)
Definition process_originate_response (now : Z) (event : ami_event) (cid phone : string)
    (ac : active_calls_t) (pc : gmap string pending_entry)
    : active_calls_t * gmap string pending_entry :=
  let response := event !! "Response" in
  let channel := event !! "Channel" in
  let reason := event !! "Reason" in
  let originate_uniqueid := event !! "Uniqueid" in
  if bool_decide (response = Some "Success") && py_truthy originate_uniqueid then
    let ac1 := match originate_uniqueid with
               | Some u => store_uniqueid cid phone u ac
               | None => ac
               end in
    let pc1 := clear_pending_call phone pc in
    (update_call_status now cid phone "answered" (Some ("Call connected: " ++ py_str channel))
       (event !! "ActionID") originate_uniqueid ac1, pc1)
  else if bool_decide (response = Some "Failure") then
    let pc1 := clear_pending_call phone pc in
    (update_call_status now cid phone "rejected" (Some ("Originate failed: " ++ py_str reason))
       (event !! "ActionID") originate_uniqueid ac, pc1)
  else (ac, pc).

(** [str.isdigit()]. A character of a [string] is the code point of the
    same number (0 to 255, the Latin-1 range); among these the characters
    with a Unicode numeric type of Digit or Decimal, those [isdigit]
    accepts, are '0' to '9' and the superscripts U+00B2, U+00B3 and
    U+00B9. *)
Definition is_digit (c : ascii) : bool :=
  let n := nat_of_ascii c in
  ((48 <=? n)%nat && (n <=? 57)%nat) || (n =? 178)%nat || (n =? 179)%nat || (n =? 185)%nat.
Definition py_isdigit (s : string) : bool :=
  negb (String.eqb s "") && forallb is_digit (list_ascii_of_string s).

(** [key in event and event[key].isdigit()], with the value. *)
Definition digit_field (event : ami_event) (key : string) : option string :=
  match event !! key with
  | Some v => if py_isdigit v then Some v else None
  | None => None
  end.

(** Step 4 of [direct_event_handler_with_optout]: the phone number taken
    from the event when correlation did not give one. *)
Definition phone_from_event (event : ami_event) : option string :=
  match digit_field event "CallerIDNum" with
  | Some p => Some p
  | None =>
    match digit_field event "ConnectedLineNum" with
    | Some p => Some p
    | None =>
      match digit_field event "Exten" with
      | Some p => Some p
      | None =>
        match event !! "Channel" with
        | Some ch =>
            match split_once "Local/" ch with
            | Some (_, after) =>
                Some (match split_once "@" after with Some (p, _) => p | None => after end)
            | None => None
            end
        | None => None
        end
      end
    end
  end.

Lemma find_in_calls_some aid calls phone :
  find_in_calls aid calls = Some phone ->
  exists r, In (phone, r) calls /\ action_id r = Some aid.
Proof.
  unfold find_in_calls.
  destruct (List.find _ calls) as [[p r]|] eqn:Hf; [|discriminate].
  intros [= <-]. apply find_some in Hf as [Hin Hb].
  exists r; split; [exact Hin|]. apply bool_decide_eq_true in Hb; exact Hb.
Qed.

Lemma find_in_calls_none aid calls :
  find_in_calls aid calls = None ->
  forall phone r, In (phone, r) calls -> action_id r <> Some aid.
Proof.
  unfold find_in_calls.
  destruct (List.find _ calls) as [[p r]|] eqn:Hf; [discriminate|].
  intros _ phone r Hin Heq.
  pose proof (find_none _ _ Hf (phone, r) Hin) as Hb; simpl in Hb.
  rewrite bool_decide_eq_false in Hb; contradiction.
Qed.

Lemma get_call_store_uniqueid cid phone u ac :
  get_call (store_uniqueid cid phone u ac) cid phone =
  option_map (fun r => {| status := status r; details := details r;
                          timestamp := timestamp r; action_id := action_id r;
                          uniqueid := Some u;
                          finalized_in_memory := finalized_in_memory r |})
             (get_call ac cid phone).
Proof.
  unfold store_uniqueid, get_call.
  destruct (ac !! cid) as [calls|] eqn:Hc; simpl; [|rewrite Hc; reflexivity].
  destruct (calls !! phone) as [r|] eqn:Hr; simpl.
  - rewrite lookup_insert_eq; simpl; rewrite lookup_insert_eq; reflexivity.
  - rewrite Hc; simpl; rewrite Hr; reflexivity.
Qed.


Lemma get_call_store_uniqueid_ne cid phone u ac cid' phone' :
  (cid', phone') <> (cid, phone) ->
  get_call (store_uniqueid cid phone u ac) cid' phone' = get_call ac cid' phone'.
Proof.
  intros Hne; unfold store_uniqueid, get_call.
  destruct (ac !! cid) as [calls|] eqn:Hc; [|reflexivity].
  destruct (calls !! phone) as [r|] eqn:Hr; [|reflexivity].
  destruct (decide (cid' = cid)) as [->|Hcid].
  - rewrite lookup_insert_eq, Hc; simpl.
    rewrite lookup_insert_ne by congruence; reflexivity.
  - rewrite lookup_insert_ne by congruence; reflexivity.
Qed.

(* ------------------------------------------------------------------ *)
(** ** The event-handler registry of [SocketAMIClient] *)

(** The handler lists of the AMI client: the module-level
    [_registered_handlers] and the [event_handlers] of the current
    [SocketAMIClient._instance] ([None] while no instance exists).  The
    socket, the connection flag and the listener thread do not touch these
    lists and are left out. *)
Section handler_registry.
Context {handler : Type} `{EqDecision handler}.
Local Open Scope list_scope.

Record ami_registry := {
  registered_handlers : list handler;
  instance_handlers : option (list handler)
}.

(** [if handler not in l: l.append(handler)]. *)
Definition append_if_absent (h : handler) (l : list handler) : list handler :=
  if decide (h ∈ l) then l else l ++ [h].

(** [add_event_handler(handler)]: into the instance, then into the
    global registry. *)
Definition add_event_handler (h : handler) (hs reg : list handler) : list handler * list handler :=
  (append_if_absent h hs, append_if_absent h reg).

(** [_restore_handlers()]: every registered handler, in order, appended to
    the instance's list if absent. *)
Definition restore_handlers (reg hs : list handler) : list handler :=
  fold_left (fun acc h => append_if_absent h acc) reg hs.

(** [get_instance(force_new)]: a new instance starts with
    [event_handlers = []] and then runs [_restore_handlers()]. *)
Definition get_instance (force_new : bool) (st : ami_registry) : ami_registry :=
  if force_new || bool_decide (instance_handlers st = None) then
    {| registered_handlers := registered_handlers st;
       instance_handlers := Some (restore_handlers (registered_handlers st) []) |}
  else st.

(** [ensure_connected()] on the instance: [connected] is its flag and
    [connect_ok] the result of [self.connect()]; handlers are restored
    after a successful connection. *)
Definition ensure_connected (connected connect_ok : bool) (hs reg : list handler) : list handler :=
  if connected then hs
  else if connect_ok then restore_handlers reg hs
  else hs.

(** [initialize_ami_client(event_handler_function)]: a forced new instance,
    the handler added when given, then [ensure_connected()] (a new instance
    is never connected yet, so [connect()] is tried). *)
Definition initialize_ami_client (h : option handler) (connect_ok : bool)
    (st : ami_registry) : ami_registry :=
  let st1 := get_instance true st in
  let hs1 := default [] (instance_handlers st1) in
  let '(hs2, reg2) := match h with
                      | Some f => add_event_handler f hs1 (registered_handlers st1)
                      | None => (hs1, registered_handlers st1)
                      end in
  {| registered_handlers := reg2;
     instance_handlers := Some (ensure_connected false connect_ok hs2 reg2) |}.

(** The operations that reach the registry. *)
Inductive registry_op :=
| OpGetInstance (force_new : bool)
| OpAddHandler (h : handler)
| OpEnsureConnected (connected connect_ok : bool)
| OpInitialize (h : option handler) (connect_ok : bool).

(** One operation; a method called while no instance exists fails
    (Python's [AttributeError] on [None]). *)
Definition registry_step (st : ami_registry) (op : registry_op) : option ami_registry :=
  match op with
  | OpGetInstance b => Some (get_instance b st)
  | OpAddHandler h =>
      match instance_handlers st with
      | Some hs =>
          let '(hs', reg') := add_event_handler h hs (registered_handlers st) in
          Some {| registered_handlers := reg'; instance_handlers := Some hs' |}
      | None => None
      end
  | OpEnsureConnected c ok =>
      match instance_handlers st with
      | Some hs =>
          Some {| registered_handlers := registered_handlers st;
                  instance_handlers := Some (ensure_connected c ok hs (registered_handlers st)) |}
      | None => None
      end
  | OpInitialize h ok => Some (initialize_ami_client h ok st)
  end.

Fixpoint run_registry (ops : list registry_op) (st : ami_registry) : option ami_registry :=
  match ops with
  | [] => Some st
  | op :: ops' => registry_step st op ≫= run_registry ops'
  end.

(** The state at import time: [_registered_handlers = []], no instance. *)
Definition registry_init : ami_registry :=
  {| registered_handlers := []; instance_handlers := None |}.

(** The handlers the listener calls for one event: [handlers =
    self.event_handlers.copy()], then [for handler in handlers]. *)
Definition dispatched_handlers (st : ami_registry) : list handler :=
  default [] (instance_handlers st).

(** The registry and the instance agree, without duplicates. *)
Definition registry_inv (st : ami_registry) : Prop :=
  NoDup (registered_handlers st) /\
  forall hs, instance_handlers st = Some hs -> hs = registered_handlers st.

Lemma append_if_absent_nodup h l : NoDup l -> NoDup (append_if_absent h l).
Proof.
  unfold append_if_absent; case_decide; [done|].
  intros Hl; apply NoDup_app; split; [done|split; [|apply NoDup_singleton]].
  intros x Hx Hx'; apply list_elem_of_singleton in Hx'; subst; done.
Qed.

Lemma restore_handlers_fresh l acc :
  NoDup (acc ++ l) -> restore_handlers l acc = acc ++ l.
Proof.
  revert acc; induction l as [|h l IH]; intros acc Hnd; simpl.
  { rewrite app_nil_r; reflexivity. }
  unfold append_if_absent; rewrite decide_False.
  - rewrite IH; [rewrite <- app_assoc; reflexivity|].
    rewrite <- app_assoc; exact Hnd.
  - intros Hin. apply NoDup_app in Hnd as (_ & Hdis & _).
    apply (Hdis h Hin); left.
Qed.

Lemma restore_handlers_present l acc :
  (forall h, h ∈ l -> h ∈ acc) -> restore_handlers l acc = acc.
Proof.
  revert acc; induction l as [|h l IH]; intros acc Hsub; simpl; [reflexivity|].
  unfold append_if_absent at 1; rewrite decide_True by (apply Hsub; left).
  apply IH; intros x Hx; apply Hsub; right; exact Hx.
Qed.

Lemma registry_inv_step st op st' :
  registry_inv st -> registry_step st op = Some st' -> registry_inv st'.
Proof.
  intros [Hnd Heq] Hs; destruct op as [b|h|c ok|h ok]; simpl in Hs.
  - injection Hs as <-; unfold get_instance.
    destruct (b || _); [|split; assumption].
    split; [exact Hnd|]; simpl; intros hs [= <-].
    apply restore_handlers_fresh; exact Hnd.
  - destruct (instance_handlers st) as [hs|] eqn:Hi; [|discriminate].
    injection Hs as <-; rewrite (Heq hs eq_refl).
    split; [apply append_if_absent_nodup, Hnd|]; simpl; intros hs' [= <-]; reflexivity.
  - destruct (instance_handlers st) as [hs|] eqn:Hi; [|discriminate].
    injection Hs as <-; rewrite (Heq hs eq_refl).
    split; [exact Hnd|]; simpl; intros hs' [= <-].
    unfold ensure_connected; destruct c; [reflexivity|].
    destruct ok; [|reflexivity].
    apply restore_handlers_present; intros x Hx; exact Hx.
  - injection Hs as <-; unfold initialize_ami_client, get_instance; simpl.
    rewrite (restore_handlers_fresh (registered_handlers st) []) by exact Hnd; simpl.
    destruct h as [f|]; simpl.
    + split; [apply append_if_absent_nodup, Hnd|]; simpl; intros hs' [= <-].
      unfold ensure_connected; destruct ok; [|reflexivity].
      apply restore_handlers_present; intros x Hx; exact Hx.
    + split; [exact Hnd|]; simpl; intros hs' [= <-].
      unfold ensure_connected; destruct ok; [|reflexivity].
      apply restore_handlers_present; intros x Hx; exact Hx.
Qed.

Lemma registry_inv_run ops st st' :
  registry_inv st -> run_registry ops st = Some st' -> registry_inv st'.
Proof.
  revert st; induction ops as [|op ops IH]; intros st Hinv Hr; simpl in Hr.
  - injection Hr as <-; exact Hinv.
  - destruct (registry_step st op) as [s1|] eqn:Hs; simpl in Hr; [|discriminate].
    apply (IH s1); [apply (registry_inv_step st op); assumption|exact Hr].
Qed.

Lemma registry_inv_init : registry_inv registry_init.
Proof. split; [constructor|discriminate]. Qed.

Lemma append_if_absent_prefix h l : exists k, append_if_absent h l = l ++ k.
Proof. unfold append_if_absent; case_decide; [exists []; rewrite app_nil_r|eexists]; reflexivity. Qed.

Lemma append_if_absent_in h l : h ∈ append_if_absent h l.
Proof.
  unfold append_if_absent; case_decide; [done|].
  apply elem_of_app; right; left.
Qed.

Lemma registry_step_prefix st op st' :
  registry_step st op = Some st' ->
  exists k, registered_handlers st' = registered_handlers st ++ k.
Proof.
  intros Hs; destruct op as [b|h|c ok|h ok]; simpl in Hs.
  - injection Hs as <-; unfold get_instance.
    destruct (b || _); exists []; rewrite app_nil_r; reflexivity.
  - destruct (instance_handlers st); [|discriminate].
    injection Hs as <-; apply append_if_absent_prefix.
  - destruct (instance_handlers st); [|discriminate].
    injection Hs as <-; exists []; rewrite app_nil_r; reflexivity.
  - injection Hs as <-; unfold initialize_ami_client; simpl.
    destruct h as [f|]; simpl; [apply append_if_absent_prefix|].
    exists []; rewrite app_nil_r; reflexivity.
Qed.

Lemma run_registry_prefix ops st st' :
  run_registry ops st = Some st' ->
  exists k, registered_handlers st' = registered_handlers st ++ k.
Proof.
  revert st; induction ops as [|op ops IH]; intros st Hr; simpl in Hr.
  - injection Hr as <-; exists []; rewrite app_nil_r; reflexivity.
  - destruct (registry_step st op) as [s1|] eqn:Hs; simpl in Hr; [|discriminate].
    destruct (registry_step_prefix _ _ _ Hs) as [k1 Hk1].
    destruct (IH _ Hr) as [k2 Hk2].
    exists (k1 ++ k2); rewrite Hk2, Hk1, app_assoc; reflexivity.
Qed.

End handler_registry.

Arguments ami_registry : clear implicits.
Arguments registry_op : clear implicits.

(** A run of registry operations: an initialisation whose connection
    fails, a repeated registration, a forced reconnect, a second handler, a
    successful [ensure_connected] and a re-initialisation. *)
Definition reconnect_ops : list (registry_op string) :=
  [OpInitialize (Some "direct_event_handler_with_optout") false;
   OpAddHandler "direct_event_handler_with_optout";
   OpGetInstance true; OpAddHandler "monitor_handler";
   OpEnsureConnected false true; OpInitialize (Some "direct_event_handler_with_optout") true].

(* ------------------------------------------------------------------ *)
(** ** The debug logs ([ami_debug_log] and [call_debug_tracker]) *)

(** One logged entry: [{'timestamp': ..., 'action': ..., 'details': ...}]. *)
Record debug_entry := {
  entry_timestamp : Z;
  entry_action : string;
  entry_details : string
}.

(** [if len(log) > n: log = log[-n:]]. *)
Definition keep_last {A} (n : nat) (l : list A) : list A :=
  if (n <? length l)%nat then drop (length l - n) l else l.

(** The last [n] elements of a list ([l[-n:]] for any length). *)
Definition lastn {A} (n : nat) (l : list A) : list A := drop (length l - n) l.

(** [log_ami_debug(action, details)] at [now]. *)
Definition log_ami_debug (now : Z) (action det : string) (log : list debug_entry)
    : list debug_entry :=
  keep_last 100 (log ++ [{| entry_timestamp := now; entry_action := action;
                            entry_details := det |}])%list.

(** A sequence of [log_ami_debug] calls [(now, action, details)]. *)
Definition run_ami_log (calls : list (Z * string * string)) (log : list debug_entry)
    : list debug_entry :=
  fold_left (fun lg '(now, action, det) => log_ami_debug now action det lg) calls log.

Definition ami_log_entry (c : Z * string * string) : debug_entry :=
  let '(now, action, det) := c in
  {| entry_timestamp := now; entry_action := action; entry_details := det |}.

(** [f"{campaign_id}_{phone_number}"]. *)
Definition debug_key (cid phone : string) : string := cid ++ "_" ++ phone.

(** [debug_log_call_state(campaign_id, phone_number, action, details)] at
    [now]. *)
Definition debug_log_call_state (now : Z) (cid phone action det : string)
    (tr : gmap string (list debug_entry)) : gmap string (list debug_entry) :=
  let key := debug_key cid phone in
  let l := default [] (tr !! key) in
  <[key := keep_last 50 (l ++ [{| entry_timestamp := now; entry_action := action;
                                  entry_details := det |}])%list]> tr.

(** [get_call_debug_history(campaign_id, phone_number)]. *)
Definition get_call_debug_history (cid phone : string) (tr : gmap string (list debug_entry))
    : list debug_entry :=
  default [] (tr !! debug_key cid phone).

(** A call of [debug_log_call_state]. *)
Record debug_call := {
  dc_now : Z;
  dc_cid : string;
  dc_phone : string;
  dc_action : string;
  dc_details : string
}.

Definition run_debug_log (calls : list debug_call) (tr : gmap string (list debug_entry))
    : gmap string (list debug_entry) :=
  fold_left (fun t c => debug_log_call_state (dc_now c) (dc_cid c) (dc_phone c)
                          (dc_action c) (dc_details c) t) calls tr.

Definition debug_call_entry (c : debug_call) : debug_entry :=
  {| entry_timestamp := dc_now c; entry_action := dc_action c; entry_details := dc_details c |}.

Lemma keep_last_lastn {A} n (l : list A) (e : A) :
  (0 < n)%nat ->
  keep_last n (lastn n l ++ [e])%list = lastn n (l ++ [e])%list.
Proof.
  intros Hn; unfold keep_last, lastn.
  rewrite !length_app, length_drop; simpl.
  destruct (Nat.ltb_spec n (length l - (length l - n) + 1)) as [Hlt|Hge].
  - rewrite drop_app_le by (rewrite length_drop; lia).
    rewrite drop_drop, drop_app_le by lia.
    f_equal; f_equal; lia.
  - assert (Hz : (length l - n = 0)%nat) by lia.
    assert (Hz' : (length l + 1 - n = 0)%nat) by lia.
    rewrite Hz, Hz'; reflexivity.
Qed.

Lemma lastn_nil {A} n : lastn n (@nil A) = [].
Proof. reflexivity. Qed.

Section debug_key_lemmas.
#[local] Arguments String.append : simpl nomatch.

Lemma debug_key_inj c1 p1 c2 p2 :
  str_has "_"%char c1 = false -> str_has "_"%char c2 = false ->
  debug_key c1 p1 = debug_key c2 p2 -> c1 = c2 /\ p1 = p2.
Proof.
  unfold debug_key.
  revert c2; induction c1 as [|a c1 IH]; intros [|b c2] H1 H2 Heq; simpl in *.
  - injection Heq as ->; split; reflexivity.
  - injection Heq as <- _; discriminate.
  - injection Heq as -> _; simpl in H1; discriminate.
  - injection Heq as <- Heq.
    apply orb_false_iff in H1 as [_ H1]; apply orb_false_iff in H2 as [_ H2].
    destruct (IH c2 H1 H2 Heq) as [-> ->]; split; reflexivity.
Qed.

End debug_key_lemmas.

Lemma run_ami_log_lastn calls l :
  run_ami_log calls (lastn 100 l) = lastn 100 (l ++ map ami_log_entry calls)%list.
Proof.
  revert l; induction calls as [|[[now a] d] calls IH]; intros l; simpl.
  - rewrite app_nil_r; reflexivity.
  - unfold run_ami_log in *; simpl.
    unfold log_ami_debug; rewrite keep_last_lastn by lia.
    rewrite IH, <- app_assoc; reflexivity.
Qed.

Lemma run_debug_log_hist calls tr cid phone h :
  str_has "_"%char cid = false ->
  Forall (fun c => str_has "_"%char (dc_cid c) = false) calls ->
  get_call_debug_history cid phone tr = lastn 50 h ->
  get_call_debug_history cid phone (run_debug_log calls tr) =
  lastn 50 (h ++ map debug_call_entry
                   (List.filter (fun c => String.eqb (dc_cid c) cid && String.eqb (dc_phone c) phone)
                      calls))%list.
Proof.
  intros Hcid; revert tr h; induction calls as [|c calls IH]; intros tr h Hall Hh; simpl.
  - rewrite app_nil_r; exact Hh.
  - inversion Hall as [|? ? Hc Hrest]; subst.
    unfold run_debug_log in *; simpl.
    destruct (String.eqb (dc_cid c) cid && String.eqb (dc_phone c) phone) eqn:Hm.
    + apply andb_true_iff in Hm as [Hm1 Hm2].
      apply String.eqb_eq in Hm1, Hm2.
      rewrite (IH _ (h ++ [debug_call_entry c])%list Hrest); [rewrite <- app_assoc; reflexivity|].
      unfold get_call_debug_history, debug_log_call_state in *.
      rewrite Hm1, Hm2, lookup_insert_eq; simpl.
      rewrite Hh; apply keep_last_lastn; lia.
    + apply (IH _ h Hrest).
      unfold get_call_debug_history, debug_log_call_state in *.
      rewrite lookup_insert_ne; [exact Hh|].
      intros Hk; destruct (debug_key_inj _ _ _ _ Hc Hcid Hk) as [Hk1 Hk2].
      rewrite Hk1, Hk2, !String.eqb_refl in Hm; discriminate.
Qed.

(** Log calls of two calls of campaign 7, interleaved with lookups logged
    under [UNKNOWN]. *)
Definition debug_calls_sample : list debug_call :=
  [{| dc_now := 1; dc_cid := "UNKNOWN"; dc_phone := "555"; dc_action := "LOOKUP_CAMPAIGN"; dc_details := "" |};
   {| dc_now := 2; dc_cid := "7"; dc_phone := "555"; dc_action := "PENDING_REGISTERED"; dc_details := "ActionID: a1" |};
   {| dc_now := 3; dc_cid := "7"; dc_phone := "556"; dc_action := "PENDING_REGISTERED"; dc_details := "ActionID: a2" |};
   {| dc_now := 4; dc_cid := "7"; dc_phone := "555"; dc_action := "FORCED_ORIGINATE_RESPONSE"; dc_details := "" |}].

(* ------------------------------------------------------------------ *)
(** ** Stuck-call detection ([detect_stuck_calls]) *)

(** [Call.get_active_campaign_ids(campaign_ids)]: the ids whose row status
    is [in_progress] or [ready]; [db_status] is the same status lookup
    [cleanup_stale_active_calls] reads. *)
Definition get_active_campaign_ids (db_status : string -> option string)
    (campaign_ids : list string) : list string :=
  List.filter (fun cid => match db_status cid with
                          | Some st => str_in st ["in_progress"; "ready"]
                          | None => false
                          end) campaign_ids.

(** The [for line in output.splitlines()] search for a live channel of the
    call: [lines] are the lines of [core show channels]. *)
Definition channel_exists (phone : string) (channel_uniqueid : option string)
    (lines : list string) : bool :=
  existsb (fun line =>
    str_contains phone line && (str_contains "Up" line || str_contains "Ringing" line) &&
    (if py_truthy channel_uniqueid then str_contains (py_str channel_uniqueid) line
     else true)) lines.

(** A record the loop treats as stuck: ringing or dialing for more than
    60 s. *)
Definition is_stuck (now : Z) (r : call_data) : bool :=
  str_in (status r) ["ringing"; "dialing"] && (60000000 <? now - timestamp r).

(** How [detect_stuck_calls()] ends: it returns, with the store as it then
    is, or it blocks for ever inside [update_call_status] called for
    [(cid, phone)]. The loop runs inside [with active_calls_lock:], and
    [asterisk_service.update_call_status] starts its work with
    [with active_calls_lock:] on the same lock, the non-reentrant
    [threading.Lock] of [app_state]: the thread waits for a lock it holds
    itself, before the call has changed anything. *)
Inductive detect_outcome :=
| DetectReturned (ac : active_calls_t)
| DetectBlocked (ac : active_calls_t) (cid phone : string).

(** The body of the inner loop for [(campaign_id, phone_number)] with the
    record [status_data] read from the snapshot. [channels cid phone] is the
    result of [run_asterisk_command('core show channels')] run for that
    call: [None] when it failed, else the lines of its output. A stuck call
    with no live channel reaches [update_call_status] and blocks there. *)
Definition detect_step (now : Z) (active_db_campaigns : list string)
    (channels : string -> string -> option (list string))
    (st : detect_outcome) (entry : (string * string) * call_data) : detect_outcome :=
  match st with
  | DetectBlocked _ _ _ => st
  | DetectReturned ac =>
      let '((cid, phone), status_data) := entry in
      if String.eqb cid "default" || negb (str_in cid active_db_campaigns) then st
      else if negb (is_stuck now status_data) then st
      else
        let exists_ := match channels cid phone with
                       | Some lines => channel_exists phone (uniqueid status_data) lines
                       | None => false
                       end in
        if exists_ then st
        else DetectBlocked ac cid phone
  end.

(** The snapshot [list(active_calls.items())] / [list(calls.items())] the
    nested loops walk, flattened in loop order. *)
Definition call_entries (ac : active_calls_t) : list ((string * string) * call_data) :=
  flat_map (fun '(cid, calls) => map (fun '(phone, r) => ((cid, phone), r)) (map_to_list calls))
           (map_to_list ac).

(** [detect_stuck_calls()] at [now]. *)
Definition detect_stuck_calls (now : Z) (db_status : string -> option string)
    (channels : string -> string -> option (list string))
    (ac : active_calls_t) : detect_outcome :=
  let ac1 := cleanup_stale_active_calls now db_status ac in
  let campaign_ids_to_check := List.filter (fun cid => negb (String.eqb cid "default"))
                                 (map fst (map_to_list ac1)) in
  let active_db_campaigns := get_active_campaign_ids db_status campaign_ids_to_check in
  fold_left (detect_step now active_db_campaigns channels) (call_entries ac1) (DetectReturned ac1).

Lemma call_entries_spec ac cid phone r :
  In ((cid, phone), r) (call_entries ac) <-> get_call ac cid phone = Some r.
Proof.
  unfold call_entries, get_call; rewrite in_flat_map; split.
  - intros ([c calls] & Hc & Hin).
    apply in_map_iff in Hin as ([p r'] & [= <- <- <-] & Hp).
    apply list_elem_of_In, elem_of_map_to_list in Hc, Hp.
    rewrite Hc; exact Hp.
  - destruct (ac !! cid) as [calls|] eqn:Hc; simpl; [|discriminate].
    intros Hp; exists (cid, calls); split.
    + apply list_elem_of_In, elem_of_map_to_list; exact Hc.
    + apply in_map_iff; exists (phone, r); split; [reflexivity|].
      apply list_elem_of_In, elem_of_map_to_list; exact Hp.
Qed.

(** The condition under which the loop calls [update_call_status] on a
    record (to mark it 'noanswer'): a non-default campaign whose row is [in_progress] or [ready], a stuck
    record, and no live channel found. *)
Definition times_out_unseen (now : Z) (db_status : string -> option string)
    (channels : string -> string -> option (list string))
    (cid phone : string) (r : call_data) : bool :=
  negb (String.eqb cid "default") &&
  match db_status cid with Some st => str_in st ["in_progress"; "ready"] | None => false end &&
  is_stuck now r &&
  negb (match channels cid phone with
        | Some lines => channel_exists phone (uniqueid r) lines
        | None => false
        end).

Lemma detect_fold_blocked now act channels l s cid phone :
  fold_left (detect_step now act channels) l (DetectBlocked s cid phone) = DetectBlocked s cid phone.
Proof. induction l as [|e l IH]; cbn [fold_left]; [reflexivity|exact IH]. Qed.

Lemma detect_step_returned now db_status act channels s cid phone r :
  str_in cid act = negb (String.eqb cid "default") &&
    match db_status cid with Some st => str_in st ["in_progress"; "ready"] | None => false end ->
  detect_step now act channels (DetectReturned s) ((cid, phone), r) =
  if times_out_unseen now db_status channels cid phone r
  then DetectBlocked s cid phone else DetectReturned s.
Proof.
  intros Hact; cbn [detect_step]; rewrite Hact; unfold times_out_unseen.
  destruct (String.eqb cid "default"); cbn [orb andb negb]; [reflexivity|].
  destruct (match db_status cid with Some st => _ | None => false end); cbn [orb andb negb];
    [|reflexivity].
  destruct (is_stuck now r); cbn [andb negb]; [|reflexivity].
  destruct (match channels cid phone with Some lines => _ | None => false end); reflexivity.
Qed.

Lemma detect_fold_result now db_status act channels s l :
  (forall cid phone r, In ((cid, phone), r) l ->
     str_in cid act = negb (String.eqb cid "default") &&
       match db_status cid with Some st => str_in st ["in_progress"; "ready"] | None => false end) ->
  match fold_left (detect_step now act channels) l (DetectReturned s) with
  | DetectReturned s' =>
      s' = s /\ forall cid phone r, In ((cid, phone), r) l ->
                 times_out_unseen now db_status channels cid phone r = false
  | DetectBlocked s' cid phone =>
      s' = s /\ exists r, In ((cid, phone), r) l /\
                 times_out_unseen now db_status channels cid phone r = true
  end.
Proof.
  induction l as [|[[c p] r] l IH]; intros Hact; cbn [fold_left].
  - split; [reflexivity|intros ? ? ? []].
  - rewrite (detect_step_returned now db_status act channels s c p r)
      by (apply (Hact c p r); left; reflexivity).
    destruct (times_out_unseen now db_status channels c p r) eqn:Ht.
    + rewrite detect_fold_blocked; split; [reflexivity|].
      exists r; split; [left; reflexivity|exact Ht].
    + assert (IH' := IH (fun c' p' r' Hin => Hact c' p' r' (or_intror Hin))).
      destruct (fold_left (detect_step now act channels) l (DetectReturned s))
        as [s'|s' c' p'].
      * destruct IH' as [-> Hall]; split; [reflexivity|].
        intros c0 p0 r0 [Heq|Hin]; [injection Heq as <- <- <-; exact Ht|exact (Hall _ _ _ Hin)].
      * destruct IH' as [-> [r' [Hin Ht']]]; split; [reflexivity|].
        exists r'; split; [right; exact Hin|exact Ht'].
Qed.

Lemma active_campaign_member db_status (ac : active_calls_t) cid calls :
  ac !! cid = Some calls ->
  str_in cid (get_active_campaign_ids db_status
                (List.filter (fun c => negb (String.eqb c "default")) (map fst (map_to_list ac)))) =
  negb (String.eqb cid "default") &&
  match db_status cid with Some st => str_in st ["in_progress"; "ready"] | None => false end.
Proof.
  intros Hc; unfold get_active_campaign_ids.
  apply eq_bool_prop_intro; split.
  - intros H; apply Is_true_true, str_in_spec in H.
    rewrite !filter_In in H; destruct H as [[_ H1] H2].
    apply Is_true_true; rewrite H1; simpl; exact H2.
  - intros H; apply Is_true_true in H; apply andb_true_iff in H as [H1 H2].
    apply Is_true_true, str_in_spec; rewrite !filter_In; split; [split|]; [|exact H1|exact H2].
    apply in_map_iff; exists (cid, calls); split; [reflexivity|].
    apply list_elem_of_In, elem_of_map_to_list; exact Hc.
Qed.

Lemma sc_row_eqb_refl r : sc_row_eqb r r = true.
Proof.
  unfold sc_row_eqb; rewrite String.eqb_refl, Z.eqb_refl.
  destruct (sc_details r) as [d|]; [rewrite String.eqb_refl|]; reflexivity.
Qed.

Lemma call_update_status_other fr db call_id st det id' :
  id' <> call_id -> (call_update_status fr db call_id st det).1 !! id' = db !! id'.
Proof.
  intros Hne; unfold call_update_status.
  destruct (db !! call_id); simpl; [apply lookup_insert_ne; congruence|reflexivity].
Qed.

Lemma promote_ready_other fr l db id :
  ~ In id l -> (promote_ready fr l db).1 !! id = db !! id.
Proof.
  revert db; induction l as [|c l IH]; intros db Hn; simpl; [reflexivity|].
  destruct (call_update_status fr db c "ready" (Some "Ready for execution")) as [db1 ok] eqn:Hc.
  destruct (promote_ready fr l db1) as [db2 sp] eqn:Hp; simpl.
  replace db2 with (promote_ready fr l db1).1 by (rewrite Hp; reflexivity).
  rewrite IH by (intros H; apply Hn; right; exact H).
  replace db1 with (call_update_status fr db c "ready" (Some "Ready for execution")).1
    by (rewrite Hc; reflexivity).
  apply call_update_status_other; intros ->; apply Hn; left; reflexivity.
Qed.

Lemma promote_ready_pending fr l db :
  NoDup l ->
  (forall id, In id l -> exists row, db !! id = Some row /\ sc_status row = "pending") ->
  (promote_ready fr l db).2 = l /\
  forall id, In id l ->
    option_map (fun r => (sc_status r, sc_details r)) ((promote_ready fr l db).1 !! id) =
    Some ("ready", Some "Ready for execution").
Proof.
  revert db; induction l as [|c l IH]; intros db Hnd Hp; simpl; [split; [reflexivity|intros _ []]|].
  inversion Hnd as [|? ? Hnot Hnd']; subst.
  destruct (Hp c (or_introl eq_refl)) as (row & Hrow & Hst).
  set (db1 := <[c := {| sc_status := "ready"; sc_details := Some "Ready for execution";
                        sc_scheduled := sc_scheduled row |}]> db).
  assert (Hc : call_update_status fr db c "ready" (Some "Ready for execution") = (db1, true)).
  { unfold call_update_status; rewrite Hrow.
    rewrite bool_decide_eq_false_2 by (intros [H|H]; discriminate).
    destruct fr; [reflexivity|]. unfold sc_row_eqb; rewrite Hst; reflexivity. }
  rewrite Hc.
  assert (Hp1 : forall id, In id l -> exists row, db1 !! id = Some row /\ sc_status row = "pending").
  { intros id Hid; unfold db1;
    rewrite lookup_insert_ne by (intros ->; apply Hnot, list_elem_of_In; exact Hid).
    apply Hp; right; exact Hid. }
  destruct (IH db1 Hnd' Hp1) as [Hs Hr].
  pose proof (promote_ready_other fr l db1 c) as Ho.
  destruct (promote_ready fr l db1) as [db2 sp]; simpl in *.
  split; [rewrite Hs; reflexivity|].
  intros id [<-|Hid]; [|apply Hr; exact Hid].
  rewrite Ho by (intros H; apply Hnot, list_elem_of_In, H).
  unfold db1; rewrite lookup_insert_eq; reflexivity.
Qed.

Lemma nodup_fst_filter {A B} (P : A * B -> bool) (l : list (A * B)) :
  NoDup (map fst l) -> NoDup (map fst (List.filter P l)).
Proof.
  induction l as [|[a b] l IH]; intros Hnd; simpl; [constructor|].
  inversion Hnd as [|? ? Hnot Hnd']; subst.
  destruct (P (a, b)); simpl; [|apply IH; exact Hnd'].
  constructor; [|apply IH; exact Hnd'].
  intros Hin; apply Hnot.
  apply list_elem_of_In in Hin; apply list_elem_of_In.
  apply in_map_iff in Hin as [[x y] [Hx Hin]]; simpl in Hx; subst x.
  apply filter_In in Hin as [Hin _].
  apply in_map_iff; exists (a, y); split; [reflexivity|exact Hin].
Qed.

(* ------------------------------------------------------------------ *)
(** ** The completion monitor ([monitor_auto_call_completion]) *)

(** What one pass of the monitor's [while] loop reads: the time elapsed
    since [start_time], the status [Call.get_by_id(campaign_id)] returns
    ([None] when no row), the Call State Store, and the status of the
    second [Call.get_by_id] made when it is about to mark the campaign. *)
Record monitor_obs := {
  mo_elapsed : Z;
  mo_info : option string;
  mo_store : active_calls_t;
  mo_final_info : option string
}.

(** How the monitor ends; the two marking outcomes stand for the
    [Call.update_status] to 'completed' and to 'failed'. *)
Inductive monitor_result :=
| MonitorCancelled
| MonitorAlreadyComplete
| MonitorMarkedCompleted
| MonitorAlreadyFinal
| MonitorTimeoutFailed
| MonitorTimeoutFinal
| MonitorRunning.

(** [max_wait_time = 3600] seconds. *)
Definition monitor_max_wait : Z := 3600000000.

(** The [while] loop from [consecutive_completed_checks = consec]; once the
    elapsed time reaches [max_wait_time] the observation's [mo_info] is the
    read made after the loop. [MonitorRunning] means the observations ran
    out before the monitor returned. *)
Fixpoint monitor_loop (cid : string) (phones : list string) (consec : nat)
    (obs : list monitor_obs) : monitor_result :=
  match obs with
  | [] => MonitorRunning
  | o :: rest =>
      if negb (mo_elapsed o <? monitor_max_wait) then
        match mo_info o with
        | Some st => if str_in st ["completed"; "cancelled"] then MonitorTimeoutFinal
                     else MonitorTimeoutFailed
        | None => MonitorTimeoutFinal
        end
      else
        match mo_info o with
        | None => MonitorAlreadyComplete
        | Some st =>
            if String.eqb st "cancelled" then MonitorCancelled
            else if String.eqb st "completed" then MonitorAlreadyComplete
            else if Nat.eqb (active_call_count (mo_store o) cid phones) 0 then
              let c := S consec in
              if (2 <=? c)%nat then
                match mo_final_info o with
                | Some fst_ => if str_in fst_ ["completed"; "cancelled"] then MonitorAlreadyFinal
                               else MonitorMarkedCompleted
                | None => MonitorAlreadyFinal
                end
              else monitor_loop cid phones c rest
            else monitor_loop cid phones 0 rest
        end
  end.

(** [monitor_auto_call_completion(call_id, phone_numbers)], after its first
    [time.sleep(check_interval)]. *)
Definition monitor_auto_call_completion (cid : string) (phones : list string)
    (obs : list monitor_obs) : monitor_result :=
  monitor_loop cid phones 0 obs.

(** A check that found the campaign running and every call complete. *)
Definition monitor_check_clear (cid : string) (phones : list string) (o : monitor_obs) : Prop :=
  mo_elapsed o < monitor_max_wait /\
  (exists st, mo_info o = Some st /\ st <> "cancelled" /\ st <> "completed") /\
  active_call_count (mo_store o) cid phones = 0%nat.

Lemma monitor_loop_marked cid phones consec obs :
  (consec = 0 \/ consec = 1)%nat ->
  monitor_loop cid phones consec obs = MonitorMarkedCompleted ->
  (consec = 1%nat /\ exists o2 post, obs = o2 :: post /\ monitor_check_clear cid phones o2 /\
     exists st, mo_final_info o2 = Some st /\ ~ In st ["completed"; "cancelled"]) \/
  (exists pre o1 o2 post, obs = (pre ++ o1 :: o2 :: post)%list /\
     monitor_check_clear cid phones o1 /\ monitor_check_clear cid phones o2 /\
     exists st, mo_final_info o2 = Some st /\ ~ In st ["completed"; "cancelled"]).
Proof.
  revert consec; induction obs as [|o rest IH]; intros consec Hc Hm; simpl in Hm; [discriminate|].
  destruct (mo_elapsed o <? monitor_max_wait) eqn:Ht; simpl in Hm.
  2: { destruct (mo_info o) as [st|]; [destruct (String.eqb st "completed" || _)|]; discriminate. }
  apply Z.ltb_lt in Ht.
  destruct (mo_info o) as [st|] eqn:Hi; [|discriminate].
  destruct (String.eqb st "cancelled") eqn:Hca; [discriminate|].
  destruct (String.eqb st "completed") eqn:Hco; [discriminate|].
  assert (Hinfo : exists st', mo_info o = Some st' /\ st' <> "cancelled" /\ st' <> "completed").
  { exists st; split; [exact Hi|]; split; apply String.eqb_neq; assumption. }
  destruct (Nat.eqb (active_call_count (mo_store o) cid phones) 0) eqn:Hn.
  - apply Nat.eqb_eq in Hn.
    assert (Hclear : monitor_check_clear cid phones o) by (split; [exact Ht|split; assumption]).
    destruct Hc as [->| ->]; simpl in Hm.
    + destruct (IH 1%nat (or_intror eq_refl) Hm) as [[_ (o2 & post & -> & H2 & Hf)]|(pre & o1 & o2 & post & -> & H1 & H2 & Hf)].
      * right; exists [], o, o2, post; split; [reflexivity|]; split; [exact Hclear|]; split; assumption.
      * right; exists (o :: pre), o1, o2, post; split; [reflexivity|]; split; [exact H1|]; split; assumption.
    + left; split; [reflexivity|]; exists o, rest; split; [reflexivity|]; split; [exact Hclear|].
      destruct (mo_final_info o) as [fs|]; [|discriminate].
      destruct (String.eqb fs "completed" || _) eqn:Hs; [discriminate|].
      exists fs; split; [reflexivity|]; intros Hin; apply str_in_spec in Hin.
      unfold str_in in Hin; simpl in Hin; congruence.
  - destruct (IH 0%nat (or_introl eq_refl) Hm) as [[Hz _]|(pre & o1 & o2 & post & -> & H1 & H2 & Hf)];
      [discriminate|].
    right; exists (o :: pre), o1, o2, post; split; [reflexivity|]; split; [exact H1|]; split; assumption.
Qed.

(** Three monitor checks of campaign 7: one call still dialing, then two
    checks with every call done. *)
Definition monitor_obs_sample : list monitor_obs :=
  [{| mo_elapsed := 15000000; mo_info := Some "in_progress";
      mo_store := update_call_status 0 "7" "556" "dialing" None (Some "a2") None ∅;
      mo_final_info := None |};
   {| mo_elapsed := 30000000; mo_info := Some "in_progress";
      mo_store := update_call_status 20000000 "7" "556" "busy" None None None
                    (update_call_status 0 "7" "556" "dialing" None (Some "a2") None ∅);
      mo_final_info := None |};
   {| mo_elapsed := 45000000; mo_info := Some "in_progress";
      mo_store := update_call_status 20000000 "7" "556" "busy" None None None
                    (update_call_status 0 "7" "556" "dialing" None (Some "a2") None ∅);
      mo_final_info := Some "in_progress" |}].

(* ------------------------------------------------------------------ *)
(** ** Campaign lookup for events ([find_actual_campaign_id]) *)

(** The outcome of the fallback database query: the row's [str(id)], no
    row, or an exception (caught by the [try]). *)
Inductive db_lookup :=
| DbRow (id : string)
| DbNoRow
| DbError.

(** The [for campaign_id, campaign_calls in active_calls.items()] scan. *)
Fixpoint find_in_memory (phone : string) (l : list (string * gmap string call_data))
    : option string :=
  match l with
  | [] => None
  | (cid, calls) :: rest =>
      if negb (String.eqb cid "default") then
        match calls !! phone with
        | Some r => if str_in (status r) ["dialing"; "ringing"; "answered"] then Some cid
                    else find_in_memory phone rest
        | None => find_in_memory phone rest
        end
      else find_in_memory phone rest
  end.

(** [find_actual_campaign_id(phone_number)] at [now]: the campaign id and
    the pending cache afterwards. *)
Definition find_actual_campaign_id (now : Z) (phone : string) (ac : active_calls_t)
    (pc : gmap string pending_entry) (db : db_lookup) : string * gmap string pending_entry :=
  let '(pending_campaign, pc1) := get_pending_campaign now phone pc in
  if py_truthy pending_campaign then (py_str pending_campaign, pc1)
  else match find_in_memory phone (map_to_list ac) with
       | Some cid => (cid, pc1)
       | None => match db with
                 | DbRow id => (id, pc1)
                 | _ => ("default", pc1)
                 end
       end.

(** A record of the phone the memory scan accepts. *)
Definition live_record (ac : active_calls_t) (cid phone : string) : Prop :=
  cid <> "default" /\
  exists r, get_call ac cid phone = Some r /\ In (status r) ["dialing"; "ringing"; "answered"].

Lemma find_in_memory_some phone (ac : active_calls_t) l cid :
  (forall c calls, In (c, calls) l -> ac !! c = Some calls) ->
  find_in_memory phone l = Some cid -> live_record ac cid phone.
Proof.
  induction l as [|[c calls] l IH]; intros Hl Hf; cbn [find_in_memory] in Hf; [discriminate|].
  destruct (String.eqb c "default") eqn:Hd; cbn [negb] in Hf.
  { apply IH; [intros c' cs H; apply Hl; right; exact H|exact Hf]. }
  destruct (calls !! phone) as [r|] eqn:Hr.
  2: { apply IH; [intros c' cs H; apply Hl; right; exact H|exact Hf]. }
  destruct (str_in (status r) _) eqn:Hs.
  2: { apply IH; [intros c' cs H; apply Hl; right; exact H|exact Hf]. }
  injection Hf as <-; split; [apply String.eqb_neq; exact Hd|].
  exists r; split; [unfold get_call; rewrite (Hl c calls (or_introl eq_refl)); exact Hr|].
  apply str_in_spec; exact Hs.
Qed.

Lemma find_in_memory_none phone (ac : active_calls_t) l :
  (forall c calls, ac !! c = Some calls -> In (c, calls) l) ->
  find_in_memory phone l = None -> forall cid, ~ live_record ac cid phone.
Proof.
  intros Hl Hf cid (Hd & r & Hr & Hs).
  unfold get_call in Hr; destruct (ac !! cid) as [calls|] eqn:Hc; simpl in Hr; [|discriminate].
  specialize (Hl cid calls Hc); clear Hc.
  induction l as [|[c cs] l IH]; [destruct Hl|].
  cbn [find_in_memory] in Hf; destruct Hl as [[= -> ->]|Hl].
  - apply String.eqb_neq in Hd; rewrite Hd in Hf; cbn [negb] in Hf.
    rewrite Hr in Hf; apply str_in_spec in Hs; rewrite Hs in Hf; discriminate.
  - apply IH; [exact Hl|].
    destruct (negb (String.eqb c "default")); [|exact Hf].
    destruct (cs !! phone) as [r'|]; [|exact Hf].
    destruct (str_in (status r') _); [discriminate|exact Hf].
Qed.

(** The [Newstate] branch of [direct_event_handler_with_optout] once
    [campaign_id] and [phone_number] are resolved; [state] is the event's
    [ChannelStateDesc]. *)
Definition handle_newstate (now : Z) (cid phone : string) (state : option string)
    (event_uniqueid event_actionid : option string) (ac : active_calls_t) : active_calls_t :=
  if bool_decide (state = Some "Ringing") then
    update_call_status now cid phone "ringing" (Some "Phone is ringing")
      event_actionid event_uniqueid ac
  else if bool_decide (state = Some "Up") then
    update_call_status now cid phone "answered" (Some "Call answered")
      event_actionid event_uniqueid ac
  else ac.

(** The [OriginateResponse] branch of [direct_event_handler_with_optout]
    once [campaign_id] and [phone_number] are resolved (the path taken when
    the forced correlation by [ActionID] found no call). *)
Definition handle_originate_event (now : Z) (event : ami_event) (cid phone : string)
    (ac : active_calls_t) (pc : gmap string pending_entry)
    : active_calls_t * gmap string pending_entry :=
  let event_actionid := event !! "ActionID" in
  let response := event !! "Response" in
  let channel := event !! "Channel" in
  let reason := event !! "Reason" in
  let originate_uniqueid := event !! "Uniqueid" in
  if bool_decide (response = Some "Success") && py_truthy originate_uniqueid then
    let ac1 := match originate_uniqueid with
               | Some u => store_uniqueid cid phone u ac
               | None => ac
               end in
    let pc1 := clear_pending_call phone pc in
    let current_status := option_map status (get_call ac1 cid phone) in
    if bool_decide (current_status = Some "dialing")
       || bool_decide (current_status = Some "pending") then
      (update_call_status now cid phone "dialing"
         (Some ("Originate successful, channel: " ++ py_str channel))
         event_actionid originate_uniqueid ac1, pc1)
    else (ac1, pc1)
  else if bool_decide (response = Some "Failure") then
    let pc1 := clear_pending_call phone pc in
    (update_call_status now cid phone "rejected" (Some ("Originate failed: " ++ py_str reason))
       event_actionid originate_uniqueid ac, pc1)
  else (ac, pc).

(* ================================================================== *)
(** * Claims *)

(** C1 (scenario of the spec, evaluated on the code): starting from no
    record, [update(dialing)] creates a non-finalized record and
    [update(ringing)] applies; the following [update(dialing)] is NOT
    rejected: the "transitional to non-transitional" branch accepts it,
    since its exclusion list [pending, waiting, unknown] omits [dialing],
    and the record goes back to [dialing]. The rest of the scenario holds:
    [answered] applies, the NORMAL_CLEARING disconnect finalizes the record
    as [completed], and a later [update(ringing)] is rejected. *)
Theorem scenario_dialing_after_ringing_applied :
  scen_view scen_1 = Some ("dialing", false) /\
  scen_view scen_2 = Some ("ringing", false) /\
  scen_view scen_3 = Some ("dialing", false) /\
  allow_update "ringing" false "dialing" = Some TransitionalToNonTransitional /\
  scen_view scen_4 = Some ("answered", false) /\
  scen_view scen_5 = Some ("completed", true) /\
  scen_view scen_6 = Some ("completed", true).
Proof. vm_compute. repeat split. Qed.

(** C3: for any sequence of [update_call_status] calls from the empty
    store, once a record is [finalized_in_memory] the next call leaves it
    with a status of significance at least as high, unless that call
    addresses this record and is the [waiting] reset, the definitive final
    state override or the stuck-status override. *)
Theorem finalized_significance_monotone (ops : list upd_call) (u : upd_call)
    (cid phone : string) (r r' : call_data) :
  get_call (run_updates ops ∅) cid phone = Some r ->
  finalized_in_memory r = true ->
  get_call (apply_upd (run_updates ops ∅) u) cid phone = Some r' ->
  significance (status r) <= significance (status r') \/
  (u_cid u = cid /\ u_phone u = phone /\
   (u_status u = "waiting" \/
    allow_update (status r) true (u_status u) = Some DefinitiveOverride \/
    allow_update (status r) true (u_status u) = Some StuckOverride)).
Proof.
  intros Hr Hfin.
  pose proof (finalized_inv_run ops ∅ finalized_inv_empty) as Hinv.
  unfold apply_upd; rewrite get_call_update_call_status.
  case_decide as Hk.
  - destruct Hk as [<- <-]. rewrite Hr. intros Hu.
    destruct (update_record_finalized_monotone _ _ _ _ _ r r' Hfin
                (Hinv _ _ _ Hr Hfin) Hu) as [Hle|Hov];
      [left; done|right; done].
  - rewrite Hr; intros [= <-]; left; lia.
Qed.

Lemma finalized_significance_monotone_witness :
  get_call (run_updates mono_ops ∅) "7" "555" = Some mono_r /\
  finalized_in_memory mono_r = true /\
  get_call (apply_upd (run_updates mono_ops ∅) mono_next) "7" "555" = Some mono_r' /\
  (significance (status mono_r) <= significance (status mono_r') \/
   (u_cid mono_next = "7" /\ u_phone mono_next = "555" /\
    (u_status mono_next = "waiting" \/
     allow_update (status mono_r) true (u_status mono_next) = Some DefinitiveOverride \/
     allow_update (status mono_r) true (u_status mono_next) = Some StuckOverride))).
Proof.
  assert (H1 : get_call (run_updates mono_ops ∅) "7" "555" = Some mono_r)
    by (vm_compute; reflexivity).
  assert (H2 : finalized_in_memory mono_r = true) by reflexivity.
  assert (H3 : get_call (apply_upd (run_updates mono_ops ∅) mono_next) "7" "555"
               = Some mono_r') by (vm_compute; reflexivity).
  split; [exact H1|]. split; [exact H2|]. split; [exact H3|].
  exact (finalized_significance_monotone mono_ops mono_next "7" "555"
           mono_r mono_r' H1 H2 H3).
Defined.

(** C4 (counterexample): a disconnect cause containing "busy" is not
    classified [busy] unless it contains "user busy": the cause "Busy"
    ends an answered call as [completed]. *)
Lemma hangup_busy_cause_completed :
  str_contains "busy" (str_lower "Busy") = true /\
  scen_view (handle_hangup 5 scen_cid scen_phone "Busy" None None scen_4)
    = Some ("completed", true).
Proof. vm_compute. split; reflexivity. Qed.

(** C4 (amended): the disconnect status depends on the cause only through
    its lower-cased text; a current [opted_out] or [aborted] status is
    kept; otherwise "user busy" gives [busy], "no answer" or "timeout"
    gives [noanswer], "rejected", "congestion" or "unallocated" gives
    [rejected], and anything else [completed], tested in that order. *)
Theorem hangup_classification (now : Z) (cid phone cause : string)
    (uid aid : option string) (ac : active_calls_t) :
  let cur := option_map status (get_call ac cid phone) in
  let lc := str_lower cause in
  (forall r, get_call ac cid phone = Some r ->
     status r = "opted_out" \/ status r = "aborted" ->
     option_map status (get_call (handle_hangup now cid phone cause uid aid ac) cid phone)
       = Some (status r)) /\
  (forall cause', str_lower cause' = lc ->
     fst (hangup_decision cur cause') = fst (hangup_decision cur cause)) /\
  (cur <> Some "opted_out" -> cur <> Some "aborted" ->
     fst (hangup_decision cur cause) =
       if str_contains "user busy" lc then "busy"
       else if str_contains "no answer" lc || str_contains "timeout" lc then "noanswer"
       else if str_contains "rejected" lc || str_contains "congestion" lc
               || str_contains "unallocated" lc then "rejected"
       else "completed").
Proof.
  intros cur lc; split; [|split].
  - intros r Hr Hst; unfold handle_hangup.
    rewrite Hr; simpl.
    destruct Hst as [Hst|Hst]; rewrite Hst; unfold hangup_decision;
      [rewrite bool_decide_true by done
      |rewrite bool_decide_false, bool_decide_true by done];
      rewrite get_call_update_call_status, decide_True by done;
      rewrite Hr; unfold update_record; rewrite Hst; simpl;
      destruct (finalized_in_memory r); reflexivity.
  - intros cause' Hl; unfold hangup_decision; rewrite Hl; fold lc.
    repeat (case_match; try reflexivity).
  - intros Hno Hna; unfold hangup_decision; fold lc.
    rewrite !bool_decide_false by done.
    repeat (case_match; try reflexivity).
Qed.

(** C5 (counterexample): digits [0] then [#] one second apart on a fresh
    buffer trigger no opt-out when the phone number matches no member row:
    no do-not-call flag is written, no [opted_out] update is pushed, and
    the buffer keeps ["0#"]. *)
Lemma dtmf_0_hash_unknown_member_no_optout :
  w_log (dtmf_0_hash []) = [PushStatus "dtmf_received"; PushStatus "dtmf_received"] /\
  w_buffers (dtmf_0_hash []) !! scen_phone
    = Some {| buffer := "0#"; dtmf_ts := Some 11000000 |}.
Proof. vm_compute. split; reflexivity. Qed.

(** C5 (amended): a digit that is the first one or comes more than 2.0 s
    after the previous one resets the buffer to that digit; otherwise it
    is appended. When the buffer then equals ["0#"] and the phone number
    belongs to a member (non-zero id), the member's do-not-call flag is
    set, exactly one [opted_out] update is pushed after the
    [dtmf_received] one, and the buffer is cleared; with no such member
    nothing but the [dtmf_received] update happens. Any other buffer
    content triggers nothing but the [dtmf_received] update. *)
Theorem dtmf_buffer_and_optout (now : Z) (cid phone digit : string)
    (uid aid : option string) (w : dtmf_world) :
  let cur := default {| buffer := ""; dtmf_ts := None |} (w_buffers w !! phone) in
  let nxt := dtmf_next now digit cur in
  let w' := handle_dtmf now cid phone digit uid aid w in
  (dtmf_ts cur = None -> nxt = {| buffer := digit; dtmf_ts := Some now |}) /\
  (forall t, dtmf_ts cur = Some t -> DTMF_TIMEOUT_US < now - t ->
     nxt = {| buffer := digit; dtmf_ts := Some now |}) /\
  (forall t, dtmf_ts cur = Some t -> now - t <= DTMF_TIMEOUT_US ->
     nxt = {| buffer := buffer cur ++ digit; dtmf_ts := Some now |}) /\
  (buffer nxt = "0#" -> forall member_id,
     select_member_id (w_members w) phone = Some member_id -> member_id <> 0 ->
     w_log w' = (w_log w ++ [PushStatus "dtmf_received"; SetDoNotCall member_id;
                             PushStatus "opted_out"])%list /\
     w_members w' = update_remove_from_call_status (w_members w) member_id 1 /\
     w_buffers w' !! phone = Some {| buffer := ""; dtmf_ts := Some now |}) /\
  (buffer nxt = "0#" -> select_member_id (w_members w) phone = None ->
     w_log w' = (w_log w ++ [PushStatus "dtmf_received"])%list /\
     w_members w' = w_members w /\
     w_buffers w' !! phone = Some nxt) /\
  (buffer nxt <> "0#" ->
     w_log w' = (w_log w ++ [PushStatus "dtmf_received"])%list /\
     w_members w' = w_members w /\
     w_buffers w' !! phone = Some nxt).
Proof.
  intros cur nxt w'.
  assert (Hts : dtmf_ts nxt = Some now)
    by (subst nxt; unfold dtmf_next; repeat case_match; reflexivity).
  split; [|split; [|split; [|split; [|split]]]].
  - intros H; subst nxt; unfold dtmf_next; rewrite H; reflexivity.
  - intros t H Hgt; subst nxt; unfold dtmf_next; rewrite H.
    apply Z.ltb_lt in Hgt; rewrite Hgt; reflexivity.
  - intros t H Hle; subst nxt; unfold dtmf_next; rewrite H.
    apply Z.ltb_ge in Hle; rewrite Hle; reflexivity.
  - intros H0 member_id Hsel Hnz; subst w'; unfold handle_dtmf; simpl.
    fold cur; fold nxt; rewrite H0; simpl.
    rewrite Hsel; apply Z.eqb_neq in Hnz; rewrite Hnz; simpl.
    rewrite <- app_assoc; simpl. rewrite <- app_assoc; simpl.
    split; [reflexivity|]; split; [reflexivity|].
    rewrite lookup_insert_eq, Hts; reflexivity.
  - intros H0 Hsel; subst w'; unfold handle_dtmf; simpl.
    fold cur; fold nxt; rewrite H0; simpl; rewrite Hsel; simpl.
    split; [reflexivity|]; split; [reflexivity|].
    by rewrite lookup_insert_eq.
  - intros H0; subst w'; unfold handle_dtmf; simpl.
    fold cur; fold nxt.
    destruct (String.eqb (buffer nxt) "0#") eqn:He;
      [apply String.eqb_eq in He; contradiction|].
    simpl; split; [reflexivity|]; split; [reflexivity|].
    by rewrite lookup_insert_eq.
Qed.

(** C6 (counterexample): an entry registered at instant 0 and looked up at
    exactly 120 s, so not younger than 120 s, is still returned. *)
Lemma pending_lookup_at_120s_returned :
  fst (get_pending_campaign 120000000 "5551234"
         (register_pending_call 0 "5551234" "7" "a1" ∅)) = Some "7".
Proof. reflexivity. Qed.

(** C6 (amended): a lookup more than 120 s after the registration returns
    nothing (and drops the entry); a lookup at most 120 s after it returns
    the registered campaign. *)
Theorem pending_lookup_age (t now : Z) (phone cid aid : string)
    (pc : gmap string pending_entry) :
  let pc1 := register_pending_call t phone cid aid pc in
  (120000000 < now - t ->
     get_pending_campaign now phone pc1 = (None, delete phone pc1)) /\
  (now - t <= 120000000 ->
     get_pending_campaign now phone pc1 = (Some cid, pc1)).
Proof.
  intros pc1; unfold get_pending_campaign; subst pc1.
  unfold register_pending_call; rewrite lookup_insert_eq; simpl.
  split; intros H.
  - apply Z.ltb_lt in H; rewrite H; reflexivity.
  - apply Z.ltb_ge in H; rewrite H; reflexivity.
Qed.

(** C10: an absent record counts as complete; stale cleanup removes a
    finalized record older than 300 s of a managed campaign, which then
    counts as complete; and a monitor pass over recipients with no record
    counts no active call. *)
Theorem absent_record_is_complete (now : Z) (db_status : string -> option string)
    (ac : active_calls_t) (cid phone : string) :
  (get_call ac cid phone = None -> is_call_complete ac phone cid = true) /\
  (cid <> "default" -> forall r, get_call ac cid phone = Some r ->
     finalized_in_memory r = true -> 300000000 < now - timestamp r ->
     get_call (cleanup_stale_active_calls now db_status ac) cid phone = None /\
     is_call_complete (cleanup_stale_active_calls now db_status ac) phone cid = true) /\
  (forall phones, (forall p, In p phones -> get_call ac cid p = None) ->
     active_call_count ac cid phones = 0%nat).
Proof.
  split; [apply is_call_complete_get_call_None|split].
  - intros Hd r Hr Hfin Hold.
    pose proof (cleanup_drops_old_finalized now db_status ac cid phone r Hd Hr Hfin Hold) as H.
    split; [exact H|apply is_call_complete_get_call_None, H].
  - intros phones; apply active_call_count_absent.
Qed.

(** C7: after the dial loop, every recipient whose origination was
    attempted (the loop reached the [dialing] write for it) has a record in
    the Call State Store, and that record is [dialing] or [rejected]. *)
Theorem attempted_origination_leaves_record (now : Z) (cid : string)
    (members : list (string * string * dial_env)) (ac : active_calls_t) (p : string) :
  In p (snd (dial_loop now cid members ac)) ->
  exists r, get_call (fst (dial_loop now cid members ac)) cid p = Some r /\
            (status r = "dialing" \/ status r = "rejected").
Proof. intros Hin; apply dial_loop_ok; right; exact Hin. Qed.

Lemma attempted_origination_leaves_record_witness :
  In "5559876" (snd (dial_loop 0 "7" dial_members ∅)) /\
  exists r, get_call (fst (dial_loop 0 "7" dial_members ∅)) "7" "5559876" = Some r /\
            (status r = "dialing" \/ status r = "rejected").
Proof.
  assert (H : In "5559876" (snd (dial_loop 0 "7" dial_members ∅)))
    by (vm_compute; right; left; reflexivity).
  split; [exact H|].
  exact (attempted_origination_leaves_record 0 "7" dial_members ∅ "5559876" H).
Defined.




(** C9 (counterexample): the login-response read runs under the 5 s
    socket timeout: a PBX answering the login correctly after 6 s makes the
    attempt raise [socket.timeout], where a read without timeout would
    have received the answer and logged in. *)
Lemma slow_login_times_out :
  connect_attempt slow_login_peer = RunRaise SocketTimeout /\
  login_wait None "" [(6000000, login_ok_response)] = RunOk None.
Proof. vm_compute. split; reflexivity. Qed.

Lemma login_wait_bounded resp evs t :
  login_wait (Some t) resp evs <> RunBlocks.
Proof.
  revert resp; induction evs as [|[wait chunk] rest IH]; intros resp; simpl.
  - destruct (str_contains _ _); [unfold login_check; destruct (_ && _)|]; discriminate.
  - destruct (str_contains _ _); [unfold login_check; destruct (_ && _); discriminate|].
    destruct (t <? wait); [discriminate|].
    destruct (String.eqb chunk ""); [discriminate|apply IH].
Qed.

(** C9 (amended): the 5 s timeout is in force for the TCP connect and for
    every read of the attempt, each read of the login-response loop
    included: a read that waits more than 5 s raises [socket.timeout], so
    no attempt blocks forever; the timeout is removed only once the login
    succeeded. *)
Theorem connect_attempt_reads_time_out (p : ami_peer) :
  connect_attempt p <> RunBlocks /\
  (forall t, connect_attempt p = RunOk t -> t = None) /\
  (forall resp wait chunk rest,
     str_contains login_terminator resp = false -> 5000000 < wait ->
     login_wait (Some 5000000) resp ((wait, chunk) :: rest) = RunRaise SocketTimeout).
Proof.
  split; [|split].
  - unfold connect_attempt.
    destruct (p_connect_us p) as [g|]; [|discriminate].
    destruct (times_out _ g); [discriminate|].
    destruct (p_events p) as [|[wait greeting] rest]; [discriminate|].
    destruct (times_out _ wait); [discriminate|].
    destruct (negb _); [discriminate|apply login_wait_bounded].
  - intros t; unfold connect_attempt.
    destruct (p_connect_us p) as [g|]; [|discriminate].
    destruct (times_out _ g); [discriminate|].
    destruct (p_events p) as [|[wait greeting] rest]; [discriminate|].
    destruct (times_out _ wait); [discriminate|].
    destruct (negb _); [discriminate|].
    generalize ""; induction rest as [|[w c] rest' IH]; intros resp; simpl.
    + destruct (str_contains _ _); [unfold login_check; destruct (_ && _)|];
        intros H; inversion H; reflexivity.
    + destruct (str_contains _ _); [unfold login_check; destruct (_ && _);
        intros H; inversion H; reflexivity|].
      destruct (5000000 <? w); [discriminate|].
      destruct (String.eqb c ""); [discriminate|apply IH].
  - intros resp wait chunk rest Hnt Hw; simpl.
    rewrite Hnt. apply Z.ltb_lt in Hw; rewrite Hw; reflexivity.
Qed.

(** C2 (evaluation at the failing interleaving): the flip to [ready] is not
    conditional on the row still being [pending]. With either rowcount
    semantics, worker B's flip of a campaign that worker A already promoted
    and started succeeds: both workers spawn an execution, and the row goes
    from [in_progress] back to [ready]. *)
Theorem promotion_race_double_spawn :
  forall found_rows : bool,
  let '(fetched_b, spawned_a, spawned_b, db3) := race found_rows in
  fetched_b = [7] /\ spawned_a = [7] /\ spawned_b = [7] /\
  option_map sc_status (db3 !! 7) = Some "ready".
Proof. intros []; vm_compute; repeat split. Qed.

(* ================================================================== *)
(** * Further properties of the code *)

(** X1: [update_call_status] only ever touches the record it addresses:
    every other (campaign, phone) record is left as it was, and the
    addressed record is present afterwards (the function never removes one). *)
Theorem update_call_status_frame now cid phone st det aid uid ac :
  (forall cid' phone', (cid', phone') <> (cid, phone) ->
     get_call (update_call_status now cid phone st det aid uid ac) cid' phone' =
     get_call ac cid' phone') /\
  is_Some (get_call (update_call_status now cid phone st det aid uid ac) cid phone).
Proof.
  split.
  - intros cid' phone' Hne; rewrite get_call_update_call_status.
    case_decide as Hk; [destruct Hk as [-> ->]; done|reflexivity].
  - rewrite get_call_update_call_status; rewrite decide_True by done.
    unfold update_record.
    destruct (String.eqb st "waiting"); [eexists; reflexivity|].
    destruct (get_call ac cid phone) as [r|] eqn:Hr; simpl; [|eexists; reflexivity].
    destruct (String.eqb (status r) ""); [eexists; reflexivity|].
    destruct (allow_update _ _ _); eexists; reflexivity.
Qed.

(** X2: In every store built by [update_call_status] calls, a record's
    [finalized_in_memory] flag equals "its status is final", so
    [is_call_complete] is true exactly for absent records and for records
    whose status is final. *)
Theorem reachable_complete_iff_final ops cid phone :
  (forall r, get_call (run_updates ops ∅) cid phone = Some r ->
     finalized_in_memory r = is_final (status r)) /\
  is_call_complete (run_updates ops ∅) phone cid =
  match get_call (run_updates ops ∅) cid phone with
  | None => true
  | Some r => is_final (status r)
  end.
Proof.
  pose proof (finalized_exact_run ops ∅ finalized_exact_empty) as Hinv.
  split; [intros r; apply Hinv|].
  specialize (Hinv cid phone).
  unfold is_call_complete, get_call in *.
  destruct (run_updates ops ∅ !! cid) as [calls|]; simpl in *; [|reflexivity].
  destruct (calls !! phone) as [r|]; [|reflexivity].
  rewrite (Hinv r eq_refl); apply orb_diag.
Qed.

(** X3: In a store built by [update_call_status] calls, once a record is
    finalized every later update other than the manual 'waiting' reset
    leaves it finalized with a final status (applied or refused). *)
Theorem finalized_record_stays_final ops u r :
  get_call (run_updates ops ∅) (u_cid u) (u_phone u) = Some r ->
  finalized_in_memory r = true ->
  u_status u <> "waiting" ->
  exists r', get_call (apply_upd (run_updates ops ∅) u) (u_cid u) (u_phone u) = Some r' /\
             finalized_in_memory r' = true /\ is_final (status r') = true.
Proof.
  intros Hr Hf Hw.
  pose proof (finalized_exact_run ops ∅ finalized_exact_empty _ _ _ Hr) as Hex.
  rewrite Hf in Hex; symmetry in Hex.
  unfold apply_upd; rewrite get_call_update_call_status, decide_True by done.
  rewrite Hr; unfold update_record; simpl.
  apply String.eqb_neq in Hw; rewrite Hw.
  destruct (String.eqb (status r) "") eqn:He.
  { apply String.eqb_eq in He; rewrite He in Hex; discriminate. }
  destruct (allow_update _ _ _) as [x|] eqn:Ha.
  - pose proof (allow_update_from_final _ _ _ _ Hex Ha) as Hst.
    eexists; split; [reflexivity|]; simpl; split; exact Hst.
  - exists r; split; [reflexivity|]; split; assumption.
Qed.

Lemma finalized_record_stays_final_witness :
  exists r',
  get_call (apply_upd (run_updates mono_ops ∅) mono_next) "7" "555" = Some r' /\
  finalized_in_memory r' = true /\ is_final (status r') = true.
Proof.
  apply (finalized_record_stays_final mono_ops mono_next mono_r);
    [vm_compute; reflexivity | reflexivity | discriminate].
Defined.

(** X4: A disconnect ([Hangup] event) on any store built by
    [update_call_status] calls always leaves the addressed record present,
    finalized and holding a final status, whatever its previous state and
    whatever the hangup cause. *)
Theorem hangup_always_finalizes ops now cid phone cause uid aid :
  exists r',
  get_call (handle_hangup now cid phone cause uid aid (run_updates ops ∅)) cid phone = Some r' /\
  finalized_in_memory r' = true /\ is_final (status r') = true.
Proof.
  pose proof (finalized_exact_run ops ∅ finalized_exact_empty cid phone) as Hinv.
  unfold handle_hangup.
  pose proof (hangup_decision_final (option_map status (get_call (run_updates ops ∅) cid phone)) cause) as Hfin.
  destruct (hangup_decision _ _) as [st det]; simpl in Hfin.
  rewrite get_call_update_call_status, decide_True by done.
  apply update_record_final_status; [exact Hfin|exact Hinv].
Qed.

(** X6: The frame [send_action] writes has exactly one blank-line
    terminator, at its very end, and reading its body back with the
    listener's line parser gives the [Action] and the parameters (a later
    duplicate key overriding an earlier one), provided no key contains ':'
    and no key or value contains a carriage return. *)
Theorem send_action_frame_roundtrip action params :
  field_ok ("Action", action) = true ->
  Forall (fun kv => field_ok kv = true) params ->
  exists body,
    split_once frame_sep (action_str action params) = Some (body, "") /\
    parse_event_text body = fields_map (("Action", action) :: params).
Proof.
  intros Ha Hps. exists (join_crlf (map field_text (("Action", action) :: params))).
  rewrite action_str_frame, <- (str_app_nil (ami_frame _)).
  split; [apply split_frame|apply parse_fields]; try discriminate; constructor; assumption.
Qed.

Lemma send_action_frame_roundtrip_witness :
  exists body,
    split_once frame_sep (action_str "Originate" originate_params) = Some (body, "") /\
    parse_event_text body = fields_map (("Action", "Originate") :: originate_params).
Proof.
  apply send_action_frame_roundtrip; [reflexivity|].
  repeat constructor.
Defined.

(** X7: A stream of well-formed frames is dispatched frame by frame: the
    handlers receive, in order, the field dicts of exactly those frames that
    carry an [Event] key (responses are dropped), and nothing is left in the
    buffer. *)
Theorem drain_frames frames :
  Forall (fun fs => fs <> [] /\ Forall (fun kv => field_ok kv = true) fs) frames ->
  drain (str_concat (map ami_frame frames)) =
  (map fields_map (List.filter has_event frames), "").
Proof.
  induction frames as [|fs frames IH]; intros Hall; [reflexivity|].
  inversion Hall as [|? ? [Hne Hok] Hfr]; subst.
  change (str_concat (map ami_frame (fs :: frames)))
    with (ami_frame fs ++ str_concat (map ami_frame frames))%string.
  rewrite drain_frame by assumption. rewrite (IH Hfr); simpl.
  destruct (has_event fs); reflexivity.
Qed.

Lemma drain_frames_witness :
  drain (str_concat (map ami_frame [response_frame; newstate_frame; hangup_frame])) =
  (map fields_map (List.filter has_event [response_frame; newstate_frame; hangup_frame]), "").
Proof.
  apply drain_frames. repeat constructor; discriminate.
Defined.

(** X8: [find_call_by_action_id] is sound and complete: a result
    [(campaign, phone)] names a record of the store whose [action_id] is
    the one searched for, and [(None, None)] is returned only when no
    record carries that [action_id]. *)
Theorem find_call_by_action_id_spec aid ac :
  (forall cid phone, find_call_by_action_id aid ac = Some (cid, phone) ->
     exists r, get_call ac cid phone = Some r /\ action_id r = Some aid) /\
  (find_call_by_action_id aid ac = None ->
     forall cid phone r, get_call ac cid phone = Some r -> action_id r <> Some aid).
Proof.
  unfold find_call_by_action_id, get_call.
  assert (Hl : forall l, (forall cid calls, In (cid, calls) l -> ac !! cid = Some calls) ->
    (forall cid phone, find_in_campaigns aid l = Some (cid, phone) ->
       exists r, (ac !! cid ≫= fun calls => calls !! phone) = Some r /\ action_id r = Some aid) /\
    (find_in_campaigns aid l = None ->
       forall cid calls phone r, In (cid, calls) l -> calls !! phone = Some r ->
       action_id r <> Some aid)).
  { induction l as [|[c calls] l IH]; intros Hin; simpl.
    - split; [discriminate|intros _ ? ? ? ? []].
    - assert (Hc : ac !! c = Some calls) by (apply Hin; left; reflexivity).
      destruct (IH (fun cid cs H => Hin cid cs (or_intror H))) as [IH1 IH2].
      destruct (find_in_calls aid (map_to_list calls)) as [p|] eqn:Hf.
      + split; [|discriminate].
        intros cid phone [= <- <-].
        destruct (find_in_calls_some _ _ _ Hf) as (r & Hr & Ha).
        exists r; rewrite Hc; simpl; split; [|exact Ha].
        apply elem_of_map_to_list, list_elem_of_In; exact Hr.
      + split; [exact IH1|].
        intros Hn cid cs phone r [[= <- <-]|Hrest] Hr.
        * apply (find_in_calls_none _ _ Hf phone r).
          apply list_elem_of_In, elem_of_map_to_list; exact Hr.
        * exact (IH2 Hn cid cs phone r Hrest Hr). }
  destruct (Hl (map_to_list ac)) as [H1 H2].
  { intros cid calls Hin; apply elem_of_map_to_list, list_elem_of_In; exact Hin. }
  split; [exact H1|].
  intros Hn cid phone r Hr.
  destruct (ac !! cid) as [calls|] eqn:Hc; simpl in Hr; [|discriminate].
  apply (H2 Hn cid calls phone r); [|exact Hr].
  apply list_elem_of_In, elem_of_map_to_list; exact Hc.
Qed.

(** X9: On an [OriginateResponse] with [Response: Success] and a non-empty
    [Uniqueid], [process_originate_response] clears the phone's pending
    entry and leaves the call's record present and carrying that
    [Uniqueid], whether [update_call_status] accepts the 'answered' update
    or refuses it; no other record changes. *)
Theorem originate_success_stores_uniqueid now event cid phone u ac pc :
  event !! "Response" = Some "Success" ->
  event !! "Uniqueid" = Some u ->
  u <> "" ->
  let '(ac', pc') := process_originate_response now event cid phone ac pc in
  pc' !! phone = None /\
  (exists r, get_call ac' cid phone = Some r /\ uniqueid r = Some u) /\
  (forall cid' phone', (cid', phone') <> (cid, phone) ->
     get_call ac' cid' phone' = get_call ac cid' phone').
Proof.
  intros Hresp Huid Hne.
  unfold process_originate_response; rewrite Hresp, Huid.
  rewrite bool_decide_eq_true_2 by reflexivity.
  assert (Ht : py_truthy (Some u) = true).
  { simpl; apply String.eqb_neq in Hne; rewrite Hne; reflexivity. }
  rewrite Ht; simpl.
  split; [apply lookup_delete_eq|split].
  - rewrite get_call_update_call_status, decide_True by done.
    rewrite get_call_store_uniqueid.
    unfold update_record.
    change (String.eqb "answered" "waiting") with false; cbv iota.
    destruct (get_call ac cid phone) as [r|]; simpl;
      [|eexists; split; [reflexivity|reflexivity]].
    destruct (String.eqb (status r) ""); [eexists; split; reflexivity|].
    destruct (allow_update _ _ _); eexists; split; reflexivity.
  - intros cid' phone' Hk.
    rewrite get_call_update_call_status, decide_False by naive_solver.
    apply get_call_store_uniqueid_ne; exact Hk.
Qed.

Lemma originate_success_stores_uniqueid_witness :
  let ev : ami_event := <["Uniqueid" := "1700000000.42"]> (<["Response" := "Success"]> ∅) in
  let '(ac', pc') := process_originate_response 5 ev "7" "555" (run_updates mono_ops ∅) ∅ in
  pc' !! "555" = None /\
  (exists r, get_call ac' "7" "555" = Some r /\ uniqueid r = Some "1700000000.42") /\
  (forall cid' phone', (cid', phone') <> ("7", "555") ->
     get_call ac' cid' phone' = get_call (run_updates mono_ops ∅) cid' phone').
Proof.
  apply (originate_success_stores_uniqueid 5
           (<["Uniqueid" := "1700000000.42"]> (<["Response" := "Success"]> ∅))
           "7" "555" "1700000000.42" (run_updates mono_ops ∅) ∅);
    [vm_compute; reflexivity | vm_compute; reflexivity | discriminate].
Defined.

(** X10: On an [OriginateResponse] with [Response: Failure],
    [process_originate_response] clears the phone's pending entry and, on
    any store built by [update_call_status] calls, leaves the call's record
    present, finalized and holding a final status. *)
Theorem originate_failure_finalizes ops now event cid phone pc :
  event !! "Response" = Some "Failure" ->
  let '(ac', pc') := process_originate_response now event cid phone (run_updates ops ∅) pc in
  pc' !! phone = None /\
  exists r, get_call ac' cid phone = Some r /\
            finalized_in_memory r = true /\ is_final (status r) = true.
Proof.
  intros Hresp.
  pose proof (finalized_exact_run ops ∅ finalized_exact_empty cid phone) as Hinv.
  unfold process_originate_response; rewrite Hresp.
  rewrite (bool_decide_eq_false_2 (Some "Failure" = Some "Success")) by congruence.
  rewrite bool_decide_eq_true_2 by reflexivity; simpl.
  split; [apply lookup_delete_eq|].
  rewrite get_call_update_call_status, decide_True by done.
  apply update_record_final_status; [reflexivity|exact Hinv].
Qed.

Lemma originate_failure_finalizes_witness :
  let '(ac', pc') := process_originate_response 5 (<["Response" := "Failure"]> ∅) "7" "555"
                       (run_updates mono_ops ∅) ∅ in
  pc' !! "555" = None /\
  exists r, get_call ac' "7" "555" = Some r /\
            finalized_in_memory r = true /\ is_final (status r) = true.
Proof.
  apply (originate_failure_finalizes mono_ops 5 (<["Response" := "Failure"]> ∅) "7" "555" ∅).
  vm_compute; reflexivity.
Defined.

(** X11: When the event carries no all-digit [CallerIDNum],
    [ConnectedLineNum] or [Exten], Step 4 of the event handler recovers
    the dialled number from a channel of the form
    [Local/<phone>@<context>] (the form [auto_execute_call] originates),
    provided the number itself has no '@'. *)
Theorem phone_from_local_channel event phone ctx :
  digit_field event "CallerIDNum" = None ->
  digit_field event "ConnectedLineNum" = None ->
  digit_field event "Exten" = None ->
  event !! "Channel" = Some ("Local/" ++ phone ++ "@" ++ ctx)%string ->
  str_has "@"%char phone = false ->
  phone_from_event event = Some phone.
Proof.
  intros H1 H2 H3 Hch Hat.
  unfold phone_from_event; rewrite H1, H2, H3, Hch.
  rewrite split_once_at_sep.
  change "@"%string with (String "@"%char EmptyString).
  rewrite (split_once_skip "@"%char EmptyString phone (String "@"%char EmptyString ++ ctx) Hat).
  rewrite split_once_at_sep, str_app_nil; reflexivity.
Qed.

Lemma phone_from_local_channel_witness :
  phone_from_event
    (<["Channel" := "Local/5551234@from-internal-00000001;1"]>
       (<["CallerIDNum" := "<unknown>"]> ∅)) = Some "5551234".
Proof.
  apply (phone_from_local_channel _ "5551234" "from-internal-00000001;1");
    vm_compute; reflexivity.
Defined.

(** X12: Whatever sequence of [get_instance], [add_event_handler],
    [ensure_connected] and [initialize_ami_client] calls runs from import
    time, the global handler registry has no duplicates and the current
    instance's [event_handlers] is exactly that registry, in registration
    order: across reconnections every handler is dispatched once per event,
    none is lost and none is called twice. *)
Theorem instance_handlers_equal_registry {handler : Type} `{EqDecision handler}
    (ops : list (registry_op handler)) st :
  run_registry ops registry_init = Some st ->
  NoDup (registered_handlers st) /\
  forall hs, instance_handlers st = Some hs -> hs = registered_handlers st.
Proof.
  intros Hr; exact (registry_inv_run ops _ st registry_inv_init Hr).
Qed.

Lemma instance_handlers_equal_registry_witness :
  exists st, run_registry reconnect_ops registry_init = Some st /\
  (NoDup (registered_handlers st) /\
   forall hs, instance_handlers st = Some hs -> hs = registered_handlers st).
Proof.
  eexists; split; [vm_compute; reflexivity|].
  apply (instance_handlers_equal_registry reconnect_ops); vm_compute; reflexivity.
Defined.

(** X13: The global registry only grows: after any run of operations the
    earlier registry is a prefix of the new one, and every handler passed
    to [add_event_handler] or [initialize_ami_client] is registered. *)
Theorem registry_keeps_handlers {handler : Type} `{EqDecision handler}
    (ops : list (registry_op handler)) st st' :
  run_registry ops st = Some st' ->
  (exists k, registered_handlers st' = registered_handlers st ++ k)%list /\
  forall h ok, In (OpAddHandler h) ops \/ In (OpInitialize (Some h) ok) ops ->
    h ∈ registered_handlers st'.
Proof.
  intros Hr; split; [exact (run_registry_prefix ops st st' Hr)|].
  revert st Hr; induction ops as [|op ops IH]; intros st Hr h ok Hin; simpl in Hr.
  { destruct Hin as [[]|[]]. }
  destruct (registry_step st op) as [s1|] eqn:Hs; simpl in Hr; [|discriminate].
  destruct Hin as [[Heq|Hin]|[Heq|Hin]]; [| exact (IH s1 Hr h ok (or_introl Hin)) | |
                                          exact (IH s1 Hr h ok (or_intror Hin))];
    subst op.
  - destruct (run_registry_prefix ops s1 st' Hr) as [k ->].
    apply elem_of_app; left; simpl in Hs.
    destruct (instance_handlers st); [|discriminate].
    injection Hs as <-; apply append_if_absent_in.
  - destruct (run_registry_prefix ops s1 st' Hr) as [k ->].
    apply elem_of_app; left; simpl in Hs.
    injection Hs as <-; apply append_if_absent_in.
Qed.

Lemma registry_keeps_handlers_witness :
  exists st', run_registry reconnect_ops registry_init = Some st' /\
  ((exists k, registered_handlers st' = registered_handlers registry_init ++ k)%list /\
   forall h ok, In (OpAddHandler h) reconnect_ops \/ In (OpInitialize (Some h) ok) reconnect_ops ->
     h ∈ registered_handlers st').
Proof.
  eexists; split; [vm_compute; reflexivity|].
  apply (registry_keeps_handlers reconnect_ops); vm_compute; reflexivity.
Defined.

(** X14: Starting from the empty [ami_debug_log] of import time, any
    sequence of [log_ami_debug] calls leaves in the log exactly the last 100
    entries logged (all of them while fewer than 100 were logged), in
    logging order. *)
Theorem ami_debug_log_keeps_last_100 calls :
  run_ami_log calls [] = lastn 100 (map ami_log_entry calls).
Proof. exact (run_ami_log_lastn calls []). Qed.

(** X15: When campaign ids contain no '_' (as [str] of a numeric id, or the
    markers 'UNKNOWN', 'DEFAULT' and 'ERROR', do not), after any sequence
    of [debug_log_call_state] calls from an empty tracker,
    [get_call_debug_history(campaign_id, phone_number)] returns exactly the
    last 50 entries logged for that campaign and phone, in logging order;
    entries of other calls never mix in. *)
Theorem call_debug_history_last_50 calls cid phone :
  str_has "_"%char cid = false ->
  Forall (fun c => str_has "_"%char (dc_cid c) = false) calls ->
  get_call_debug_history cid phone (run_debug_log calls ∅) =
  lastn 50 (map debug_call_entry
              (List.filter (fun c => String.eqb (dc_cid c) cid && String.eqb (dc_phone c) phone)
                 calls)).
Proof.
  intros Hcid Hall.
  exact (run_debug_log_hist calls ∅ cid phone [] Hcid Hall eq_refl).
Qed.

Lemma call_debug_history_last_50_witness :
  get_call_debug_history "7" "555" (run_debug_log debug_calls_sample ∅) =
  lastn 50 (map debug_call_entry
              (List.filter (fun c => String.eqb (dc_cid c) "7" && String.eqb (dc_phone c) "555")
                 debug_calls_sample)).
Proof.
  apply call_debug_history_last_50; [reflexivity|].
  repeat constructor.
Defined.

(** X16: [detect_stuck_calls] never changes a record beyond what its
    cleanup pass does. When no record left by the cleanup times out unseen
    (a record of a non-default campaign whose database row is
    [in_progress] or [ready], ringing or dialing for more than 60 s, with
    no live channel found or the channel listing failed), it returns with
    the cleanup's store. Otherwise it blocks for ever in
    [update_call_status] on such a record, holding [active_calls_lock],
    with the cleanup's store unchanged: no record is ever marked
    'noanswer'. *)
Theorem detect_stuck_calls_outcome now db_status channels ac :
  let ac1 := cleanup_stale_active_calls now db_status ac in
  match detect_stuck_calls now db_status channels ac with
  | DetectReturned s =>
      s = ac1 /\ forall cid phone r, get_call ac1 cid phone = Some r ->
                   times_out_unseen now db_status channels cid phone r = false
  | DetectBlocked s cid phone =>
      s = ac1 /\ exists r, get_call ac1 cid phone = Some r /\
                   times_out_unseen now db_status channels cid phone r = true
  end.
Proof.
  cbv zeta; unfold detect_stuck_calls.
  set (ac1 := cleanup_stale_active_calls now db_status ac).
  pose proof (detect_fold_result now db_status
    (get_active_campaign_ids db_status
       (List.filter (fun cid => negb (String.eqb cid "default")) (map fst (map_to_list ac1))))
    channels ac1 (call_entries ac1)) as H.
  destruct (fold_left _ (call_entries ac1) (DetectReturned ac1)) as [s|s cid phone].
  - destruct H as [Hs Hall].
    { intros cid phone r Hin; apply call_entries_spec in Hin.
      unfold get_call in Hin; destruct (ac1 !! cid) as [calls|] eqn:Hc; [|discriminate].
      exact (active_campaign_member db_status ac1 cid calls Hc). }
    split; [exact Hs|]; intros cid phone r Hr.
    apply Hall, call_entries_spec; exact Hr.
  - destruct H as [Hs [r [Hin Ht]]].
    { intros cid' phone' r Hin; apply call_entries_spec in Hin.
      unfold get_call in Hin; destruct (ac1 !! cid') as [calls|] eqn:Hc; [|discriminate].
      exact (active_campaign_member db_status ac1 cid' calls Hc). }
    split; [exact Hs|]; exists r; split; [apply call_entries_spec; exact Hin|exact Ht].
Qed.

(** X17: [Call.update_status] never creates a row: on a missing id it
    changes nothing and returns False. On an existing row it sets the
    status, sets the details only when [details] is truthy, keeps the
    schedule and every other row, and returns True whenever the client
    counts matched rows or the status actually changes. Repeating the same
    update changes nothing more, and under changed-rows counting the
    repeat returns False. *)
Theorem call_update_status_behaviour found_rows db call_id st det :
  (db !! call_id = None -> call_update_status found_rows db call_id st det = (db, false)) /\
  (forall row, db !! call_id = Some row ->
     let '(db', ok) := call_update_status found_rows db call_id st det in
     db' !! call_id = Some {| sc_status := st;
                               sc_details := if bool_decide (det = None \/ det = Some "")
                                             then sc_details row else det;
                               sc_scheduled := sc_scheduled row |} /\
     (forall id', id' <> call_id -> db' !! id' = db !! id') /\
     (found_rows = true \/ sc_status row <> st -> ok = true)) /\
  (let '(db1, _) := call_update_status found_rows db call_id st det in
   let '(db2, ok2) := call_update_status found_rows db1 call_id st det in
   db2 = db1 /\ (found_rows = false -> ok2 = false)).
Proof.
  unfold call_update_status; split; [|split].
  - intros ->; reflexivity.
  - intros row ->; split; [apply lookup_insert_eq|split].
    + intros id' Hne; apply lookup_insert_ne; congruence.
    + intros [->|Hne]; [reflexivity|].
      destruct found_rows; [reflexivity|].
      unfold sc_row_eqb; simpl.
      apply String.eqb_neq in Hne; rewrite Hne; reflexivity.
  - destruct (db !! call_id) as [row|] eqn:Hrow; [|rewrite Hrow; split; [reflexivity|done]].
    rewrite lookup_insert_eq.
    set (row' := {| sc_status := st;
                    sc_details := if bool_decide (det = None \/ det = Some "")
                                  then sc_details row else det;
                    sc_scheduled := sc_scheduled row |}).
    assert (Hfix : {| sc_status := st;
                      sc_details := if bool_decide (det = None \/ det = Some "")
                                    then sc_details row' else det;
                      sc_scheduled := sc_scheduled row' |} = row').
    { unfold row'; simpl; case_bool_decide; reflexivity. }
    rewrite Hfix; split; [apply insert_insert_eq|].
    intros ->; rewrite sc_row_eqb_refl; reflexivity.
Qed.

(** X18: When no other worker touches the table, one pass of
    [scheduled_call_checker] spawns an execution for every campaign it
    fetched (pending and due at [now]), each exactly once, and leaves each
    of them [ready] with details 'Ready for execution', under either
    rowcount semantics; rows it did not fetch are untouched. *)
Theorem scheduler_pass_spawns_fetched found_rows now db :
  let fetched := get_pending_calls_for_scheduling now db in
  let '(db', spawned) := promote_ready found_rows fetched db in
  spawned = fetched /\ NoDup spawned /\
  (forall id, In id fetched ->
     option_map (fun r => (sc_status r, sc_details r)) (db' !! id) =
     Some ("ready", Some "Ready for execution")) /\
  (forall id, ~ In id fetched -> db' !! id = db !! id).
Proof.
  intros fetched.
  assert (Hnd : NoDup fetched).
  { unfold fetched, get_pending_calls_for_scheduling.
    apply nodup_fst_filter, NoDup_fst_map_to_list. }
  assert (Hp : forall id, In id fetched -> exists row, db !! id = Some row /\ sc_status row = "pending").
  { intros id Hid; unfold fetched, get_pending_calls_for_scheduling in Hid.
    apply in_map_iff in Hid as [[k row] [Hk Hin]]; simpl in Hk; subst k.
    apply filter_In in Hin as [Hin Hc]; simpl in Hc.
    apply andb_true_iff in Hc as [Hc _]; apply String.eqb_eq in Hc.
    exists row; split; [apply elem_of_map_to_list, list_elem_of_In; exact Hin|exact Hc]. }
  pose proof (promote_ready_pending found_rows fetched db Hnd Hp)
    as [Hs Hr].
  pose proof (promote_ready_other found_rows fetched db) as Ho.
  destruct (promote_ready found_rows fetched db) as [db' spawned]; simpl in *.
  subst spawned; split; [reflexivity|split; [exact Hnd|split; [exact Hr|exact Ho]]].
Qed.

(** X19: [monitor_auto_call_completion] marks a campaign completed only
    after two consecutive checks, both within [max_wait_time], that found
    the campaign neither cancelled nor completed and no call of its phone
    list active; a check with an active call in between resets the count.
    The last of the two is followed by a read that finds the campaign
    neither completed nor cancelled. *)
Theorem monitor_marks_after_two_clear_checks cid phones obs :
  monitor_auto_call_completion cid phones obs = MonitorMarkedCompleted ->
  exists pre o1 o2 post, obs = (pre ++ o1 :: o2 :: post)%list /\
    monitor_check_clear cid phones o1 /\ monitor_check_clear cid phones o2 /\
    exists st, mo_final_info o2 = Some st /\ ~ In st ["completed"; "cancelled"].
Proof.
  intros Hm; unfold monitor_auto_call_completion in Hm.
  destruct (monitor_loop_marked cid phones 0 obs (or_introl eq_refl) Hm) as [[Hz _]|H];
    [discriminate|exact H].
Qed.

Lemma monitor_marks_after_two_clear_checks_witness :
  monitor_auto_call_completion "7" ["556"] monitor_obs_sample = MonitorMarkedCompleted /\
  exists pre o1 o2 post, monitor_obs_sample = (pre ++ o1 :: o2 :: post)%list /\
    monitor_check_clear "7" ["556"] o1 /\ monitor_check_clear "7" ["556"] o2 /\
    exists st, mo_final_info o2 = Some st /\ ~ In st ["completed"; "cancelled"].
Proof.
  split; [vm_compute; reflexivity|].
  apply monitor_marks_after_two_clear_checks; vm_compute; reflexivity.
Defined.

(** X20: [find_actual_campaign_id] takes the campaign from a fresh
    non-empty pending entry first. Otherwise, whenever some non-default
    campaign holds a dialing, ringing or answered record of the phone, it
    returns such a campaign (the database is not consulted); only when none
    does it fall back to the database row, and to 'default' when the query
    finds nothing or fails. *)
Theorem find_actual_campaign_id_sources now phone ac pc db :
  let r := fst (find_actual_campaign_id now phone ac pc db) in
  (forall c, fst (get_pending_campaign now phone pc) = Some c -> c <> "" -> r = c) /\
  (py_truthy (fst (get_pending_campaign now phone pc)) = false ->
     ((exists cid, live_record ac cid phone) -> live_record ac r phone) /\
     ((forall cid, ~ live_record ac cid phone) ->
        r = match db with DbRow id => id | _ => "default" end)).
Proof.
  unfold find_actual_campaign_id.
  destruct (get_pending_campaign now phone pc) as [p pc1]; cbn [fst]; split.
  - intros c -> Hc; simpl; apply String.eqb_neq in Hc; rewrite Hc; reflexivity.
  - intros Ht; rewrite Ht.
    assert (Hin1 : forall c calls, In (c, calls) (map_to_list ac) -> ac !! c = Some calls).
    { intros c calls H; apply elem_of_map_to_list, list_elem_of_In; exact H. }
    assert (Hin2 : forall c calls, ac !! c = Some calls -> In (c, calls) (map_to_list ac)).
    { intros c calls H; apply list_elem_of_In, elem_of_map_to_list; exact H. }
    destruct (find_in_memory phone (map_to_list ac)) as [cid|] eqn:Hf; simpl; split.
    + intros _; exact (find_in_memory_some phone ac _ cid Hin1 Hf).
    + intros Hno; exfalso; exact (Hno cid (find_in_memory_some phone ac _ cid Hin1 Hf)).
    + intros [cid Hl]; exfalso; exact (find_in_memory_none phone ac _ Hin2 Hf cid Hl).
    + intros _; destruct db; reflexivity.
Qed.

(** X21: A [Newstate] event (channel 'Ringing' or 'Up') never moves a call
    back once it is answered or further: a record whose status has
    significance 50 or more keeps its status, and unless that status is
    'answered' (where 'Up' refreshes details and timestamp) the record is
    left exactly as it was. *)
Theorem newstate_never_downgrades now cid phone state uid aid ac r :
  get_call ac cid phone = Some r ->
  50 <= significance (status r) ->
  exists r', get_call (handle_newstate now cid phone state uid aid ac) cid phone = Some r' /\
             status r' = status r /\ (status r <> "answered" -> r' = r).
Proof.
  intros Hr Hs; unfold handle_newstate.
  assert (Hne : status r <> "") by (intros He; rewrite He in Hs; cbv in Hs; congruence).
  assert (Hnt : str_in (status r) ["dialing"; "ringing"] = false).
  { destruct (str_in (status r) _) eqn:Ht; [|reflexivity].
    apply str_in_spec in Ht; destruct Ht as [Ht|[Ht|[]]]; rewrite <- Ht in Hs; cbv in Hs; congruence. }
  assert (Hupd : forall st det,
    significance st <= 50 -> st <> "waiting" ->
    ~ In st ["completed"; "opted_out"; "aborted"; "noanswer"; "busy"; "rejected"] ->
    get_call (update_call_status now cid phone st det aid uid ac) cid phone =
    if String.eqb st (status r) then update_record now st det aid uid (Some r) else Some r).
  { intros st det Hst Hw Hno.
    rewrite get_call_update_call_status, decide_True by done; rewrite Hr.
    unfold update_record; cbn [status].
    apply String.eqb_neq in Hw; rewrite Hw.
    apply String.eqb_neq in Hne; rewrite Hne.
    unfold allow_update; rewrite Hnt.
    assert (Hlt : (significance (status r) <? significance st) = false) by (apply Z.ltb_ge; lia).
    rewrite Hlt; cbv iota.
    destruct (String.eqb st (status r)) eqn:Heq; [reflexivity|].
    assert (Hd : str_in st ["completed"; "opted_out"; "aborted"] = false).
    { destruct (str_in st ["completed"; "opted_out"; "aborted"]) eqn:Hi; [|reflexivity].
      apply str_in_spec in Hi; exfalso; apply Hno; simpl in Hi |- *; tauto. }
    assert (Hd' : str_in st ["noanswer"; "busy"; "rejected"] = false).
    { destruct (str_in st ["noanswer"; "busy"; "rejected"]) eqn:Hi; [|reflexivity].
      apply str_in_spec in Hi; exfalso; apply Hno; simpl in Hi |- *; tauto. }
    rewrite Hd, Hd', !andb_false_r; reflexivity. }
  case_bool_decide.
  - rewrite Hupd; [| vm_compute; intros Hc; discriminate Hc | intros Hc; discriminate Hc
                    | simpl; intuition discriminate].
    destruct (String.eqb "ringing" (status r)) eqn:Heq.
    + apply String.eqb_eq in Heq; rewrite <- Heq in Hs; cbv in Hs; congruence.
    + exists r; split; [reflexivity|split; [reflexivity|intros _; reflexivity]].
  - case_bool_decide.
    + rewrite Hupd; [| vm_compute; intros Hc; discriminate Hc | intros Hc; discriminate Hc
                    | simpl; intuition discriminate].
      destruct (String.eqb "answered" (status r)) eqn:Heq.
      * apply String.eqb_eq in Heq.
        unfold update_record; rewrite <- Heq; simpl.
        eexists; split; [reflexivity|]; split; [reflexivity|intros Hc; congruence].
      * exists r; split; [reflexivity|split; [reflexivity|intros _; reflexivity]].
    + exists r; split; [exact Hr|split; [reflexivity|intros _; reflexivity]].
Qed.

Lemma newstate_never_downgrades_witness :
  exists r', get_call (handle_newstate 9 "7" "555" (Some "Ringing") None None
                         (run_updates mono_ops ∅)) "7" "555" = Some r' /\
             status r' = status mono_r /\ (status mono_r <> "answered" -> r' = mono_r).
Proof.
  apply (newstate_never_downgrades 9 "7" "555" (Some "Ringing") None None
           (run_updates mono_ops ∅) mono_r); vm_compute; [reflexivity|discriminate].
Defined.

(** X22: In the [OriginateResponse] branch of the event handler, a
    [Success] response with a non-empty [Uniqueid] clears the phone's
    pending correlation, stores the [Uniqueid] on the call's record, and
    never promotes the call: the status stays as it was, except that
    'pending' becomes 'dialing'. It creates no record when there is none,
    and it leaves every other record unchanged. *)
Theorem originate_event_success_no_promotion now event cid phone ac pc u :
  event !! "Response" = Some "Success" ->
  event !! "Uniqueid" = Some u -> u <> "" ->
  let res := handle_originate_event now event cid phone ac pc in
  res.2 = delete phone pc /\
  (forall r, get_call ac cid phone = Some r ->
     exists r', get_call res.1 cid phone = Some r' /\
       status r' = (if String.eqb (status r) "pending" then "dialing" else status r) /\
       uniqueid r' = Some u) /\
  (get_call ac cid phone = None -> get_call res.1 cid phone = None) /\
  (forall cid' phone', (cid', phone') <> (cid, phone) ->
     get_call res.1 cid' phone' = get_call ac cid' phone').
Proof.
  intros Hresp Huid Hu; cbv zeta.
  unfold handle_originate_event; rewrite Hresp, Huid.
  rewrite (bool_decide_eq_true_2 (Some "Success" = Some "Success")) by reflexivity.
  assert (Ht : py_truthy (Some u) = true)
    by (cbn [py_truthy]; apply negb_true_iff, String.eqb_neq; exact Hu).
  rewrite Ht; cbn [andb].
  pose proof (get_call_store_uniqueid cid phone u ac) as Hs.
  assert (Hframe : forall cid' phone', (cid', phone') <> (cid, phone) ->
            get_call (store_uniqueid cid phone u ac) cid' phone' = get_call ac cid' phone')
    by (intros; apply get_call_store_uniqueid_ne; assumption).
  rewrite Hs.
  destruct (get_call ac cid phone) as [r|] eqn:Hr.
  - cbn [option_map].
    assert (Hupd : forall st, status r = st -> (st = "dialing" \/ st = "pending") ->
      exists r', get_call (update_call_status now cid phone "dialing"
                   (Some ("Originate successful, channel: " ++ py_str (event !! "Channel")))
                   (event !! "ActionID") (Some u) (store_uniqueid cid phone u ac)) cid phone = Some r' /\
                 status r' = "dialing" /\ uniqueid r' = Some u).
    { intros st Hst Hc.
      rewrite get_call_update_call_status, decide_True by done; rewrite Hs.
      unfold update_record; cbn [option_map status finalized_in_memory action_id uniqueid].
      rewrite Hst.
      destruct Hc as [-> | ->]; eexists; split; reflexivity || (split; reflexivity). }
    assert (Hupd_frame : forall cid' phone', (cid', phone') <> (cid, phone) ->
      get_call (update_call_status now cid phone "dialing"
                   (Some ("Originate successful, channel: " ++ py_str (event !! "Channel")))
                   (event !! "ActionID") (Some u) (store_uniqueid cid phone u ac)) cid' phone' =
      get_call ac cid' phone').
    { intros cid' phone' Hne.
      rewrite get_call_update_call_status, decide_False by (intros [-> ->]; apply Hne; reflexivity).
      apply Hframe; exact Hne. }
    destruct (decide (status r = "dialing")) as [Hd|Hd].
    + rewrite (bool_decide_eq_true_2 (Some (status r) = Some "dialing")) by congruence.
      cbn [orb fst snd]; split; [reflexivity|]; split; [|split; [congruence|exact Hupd_frame]].
      intros r0 Hr0; injection Hr0 as <-.
      destruct (Hupd "dialing" Hd (or_introl eq_refl)) as [r' [H1 [H2 H3]]].
      exists r'; split; [exact H1|]; split; [|exact H3].
      rewrite Hd, H2; reflexivity.
    + rewrite (bool_decide_eq_false_2 (Some (status r) = Some "dialing")) by congruence.
      destruct (decide (status r = "pending")) as [Hp|Hp].
      * rewrite (bool_decide_eq_true_2 (Some (status r) = Some "pending")) by congruence.
        cbn [orb fst snd]; split; [reflexivity|]; split; [|split; [congruence|exact Hupd_frame]].
        intros r0 Hr0; injection Hr0 as <-.
        destruct (Hupd "pending" Hp (or_intror eq_refl)) as [r' [H1 [H2 H3]]].
        exists r'; split; [exact H1|]; split; [|exact H3].
        rewrite Hp, H2; reflexivity.
      * rewrite (bool_decide_eq_false_2 (Some (status r) = Some "pending")) by congruence.
        cbn [orb fst snd]; split; [reflexivity|]; split; [|split; [congruence|exact Hframe]].
        intros r0 Hr0; injection Hr0 as <-.
        rewrite Hs; cbn [option_map].
        eexists; split; [reflexivity|]; cbn [status uniqueid]; split; [|reflexivity].
        apply String.eqb_neq in Hp; rewrite Hp; reflexivity.
  - cbn [option_map].
    rewrite (bool_decide_eq_false_2 (@None string = Some "dialing")) by congruence.
    rewrite (bool_decide_eq_false_2 (@None string = Some "pending")) by congruence.
    cbn [orb fst snd]; split; [reflexivity|]; split; [intros r0 Hr0; discriminate Hr0|].
    split; [intros _; rewrite Hs; reflexivity|exact Hframe].
Qed.

Lemma originate_event_success_no_promotion_witness :
  let event : ami_event := <["Response" := "Success"]> (<["Uniqueid" := "1700.1"]>
                             (<["Channel" := "Local/555@from-internal"]> ∅)) in
  let res := handle_originate_event 9 event "7" "555" (run_updates mono_ops ∅) ∅ in
  res.2 = delete "555" ∅ /\
  (forall r, get_call (run_updates mono_ops ∅) "7" "555" = Some r ->
     exists r', get_call res.1 "7" "555" = Some r' /\
       status r' = (if String.eqb (status r) "pending" then "dialing" else status r) /\
       uniqueid r' = Some "1700.1") /\
  (get_call (run_updates mono_ops ∅) "7" "555" = None -> get_call res.1 "7" "555" = None) /\
  (forall cid' phone', (cid', phone') <> ("7", "555") ->
     get_call res.1 cid' phone' = get_call (run_updates mono_ops ∅) cid' phone').
Proof.
  apply (originate_event_success_no_promotion 9
           (<["Response" := "Success"]> (<["Uniqueid" := "1700.1"]>
              (<["Channel" := "Local/555@from-internal"]> ∅)))
           "7" "555" (run_updates mono_ops ∅) ∅ "1700.1");
    [vm_compute; reflexivity | vm_compute; reflexivity | discriminate].
Defined.
